(** * Phishing detection system: rule-based URL and email classifiers

    A shallow embedding of [phishingdetectionsystem.py]: the two heuristic
    classifiers [is_phishing_url] and [is_email_phishing], the helpers they
    call, and the two history queries of the [home] route, together with
    the properties of the specification that concern them.

    Python strings are sequences of Unicode code points; they are modelled
    as lists of code points.  The parts of the Python runtime that depend on
    the Unicode character database (and on the version of [urllib]) outside
    the ASCII range are taken as a parameter, see [Runtime]. *)

From Stdlib Require Import String Ascii.
From Stdlib Require Import List NArith ZArith Bool Arith Lia.
From Stdlib Require Import Permutation Sorted.
Import ListNotations.

(** ** Python strings *)

Module PyStr.

Definition char := N.
Definition str := list char.

(** A character and a string literal of the source (ASCII only). *)
Definition chr (a : ascii) : char := N_of_ascii a.
Definition lit (s : string) : str := map N_of_ascii (list_ascii_of_string s).

Definition isascii (c : char) : bool := (c <? 128)%N.

(** [s.startswith(p)] *)
Fixpoint startswith (s p : str) {struct p} : bool :=
  match p with
  | [] => true
  | a :: p' =>
      match s with
      | [] => false
      | b :: s' => (b =? a)%N && startswith s' p'
      end
  end.

(** [p in s] on strings: [p] occurs in [s] as a substring. *)
Fixpoint str_in (p s : str) : bool :=
  startswith s p ||
  match s with
  | [] => false
  | _ :: s' => str_in p s'
  end.

(** [s.count(c)] for a one-character argument. *)
Fixpoint count (c : char) (s : str) : nat :=
  match s with
  | [] => 0
  | x :: s' => (if (x =? c)%N then 1 else 0) + count c s'
  end.

(** [s.split(sep)] for a one-character separator: never the empty list. *)
Fixpoint split (sep : char) (s : str) : list str :=
  match s with
  | [] => [[]]
  | c :: s' =>
      if (c =? sep)%N then [] :: split sep s'
      else match split sep s' with
           | h :: t => (c :: h) :: t
           | [] => [[c]]
           end
  end.

(** [parts[-1]] on a list that is not empty. *)
Definition last_part (parts : list str) : str := last parts [].

(** [s[n:]] *)
Definition slice_from (n : nat) (s : str) : str := skipn n s.

Fixpoint dropwhile (p : char -> bool) (s : str) : str :=
  match s with
  | [] => []
  | c :: s' => if p c then dropwhile p s' else s
  end.

Definition ascii_lower (c : char) : char :=
  if ((65 <=? c) && (c <=? 90))%N then (c + 32)%N else c.

Definition ascii_isspace (c : char) : bool :=
  ((9 <=? c) && (c <=? 13) || (28 <=? c) && (c <=? 32))%N.

Definition ascii_isdigit (c : char) : bool := ((48 <=? c) && (c <=? 57))%N.

End PyStr.
Import PyStr.

(** ** Exceptions *)

Inductive exn := ValueError (msg : str).

Inductive outcome (A : Type) :=
| Return (a : A)
| Raise (e : exn).
Arguments Return {A} a.
Arguments Raise {A} e.

(** ** The Python runtime outside ASCII

    [str.strip], [str.lower] and the regular-expression class [\d] consult
    the Unicode character database, and [urllib.parse] applies two checks to
    a network location whose outcome depends on Unicode normalisation and on
    the library version.  On ASCII text all of them are fixed, and written
    out below; beyond it they are the fields of this record. *)

Record Runtime := {
  (** [c.isspace()] for a non-ASCII character *)
  uni_isspace : char -> bool;
  (** membership in the class [\d] for a non-ASCII character *)
  uni_isdecimal : char -> bool;
  (** [s.lower()] for a string with a non-ASCII character *)
  uni_lower : str -> str;
  (** whether [_checknetloc] rejects a non-ASCII network location *)
  nfkc_rejects : str -> bool;
  (** the exception, if any, that [_check_bracketed_netloc] raises on a
      network location holding both brackets (none before Python 3.11.4) *)
  bracketed_check : str -> option exn
}.

(** The runtime of a Python whose character database is reduced to ASCII;
    the concrete runtime at which statements are instantiated. *)
Definition ascii_runtime : Runtime := {|
  uni_isspace := fun _ => false;
  uni_isdecimal := fun _ => false;
  uni_lower := fun s => map ascii_lower s;
  nfkc_rejects := fun _ => false;
  bracketed_check := fun _ => None
|}.

(** ** Regular expressions ([re])

    The fragment of Python's pattern language the program uses, with the
    semantics of the backtracking matcher: alternatives are tried in
    priority order, repetitions are greedy, and the first success wins.
    Patterns hold at most one capturing group. *)

Module Re.

Inductive regex :=
| Eps                               (* the empty pattern *)
| Lit (c : char)                    (* a literal character *)
| Class (p : char -> bool)          (* a character class *)
| Cat (r1 r2 : regex)               (* r1 r2 *)
| Opt (r : regex)                   (* r? *)
| Rep (lo hi : nat) (r : regex)     (* r{lo,hi} *)
| Plus (r : regex)                  (* r+ *)
| Group (r : regex).                (* ( r ) *)

Section Matcher.
Context {A : Type}.

(** [exec r s cap k] matches [r] at the head of [s] and hands the rest of the
    text and the capture to [k]; [None] means that every way of matching was
    tried and failed.  The bodies of the repetitions of the program's
    patterns consume at least one character, so the fuel of [Plus], the
    length of the text, is never exhausted. *)
Fixpoint exec (r : regex) (s : str) (cap : option str)
         (k : str -> option str -> option A) {struct r} : option A :=
  match r with
  | Eps => k s cap
  | Lit c =>
      match s with
      | x :: s' => if (x =? c)%N then k s' cap else None
      | [] => None
      end
  | Class p =>
      match s with
      | x :: s' => if p x then k s' cap else None
      | [] => None
      end
  | Cat r1 r2 => exec r1 s cap (fun s' cap' => exec r2 s' cap' k)
  | Opt r1 =>
      match exec r1 s cap k with
      | Some x => Some x
      | None => k s cap
      end
  | Rep lo hi r1 =>
      (fix rep (lo hi : nat) (s : str) (cap : option str) {struct hi} :=
         match hi with
         | O => k s cap
         | S hi' =>
             match exec r1 s cap (fun s' cap' => rep (pred lo) hi' s' cap') with
             | Some x => Some x
             | None => if Nat.eqb lo 0 then k s cap else None
             end
         end) lo hi s cap
  | Plus r1 =>
      (fix plus (fuel : nat) (s : str) (cap : option str) {struct fuel} :=
         match fuel with
         | O => None
         | S fuel' =>
             exec r1 s cap (fun s' cap' =>
               match plus fuel' s' cap' with
               | Some x => Some x
               | None => k s' cap'
               end)
         end) (S (length s)) s cap
  | Group r1 =>
      exec r1 s cap (fun s' _ => k s' (Some (firstn (length s - length s') s)))
  end.

End Matcher.

(** A match of [r] at the head of [s]: the rest of the text and the group. *)
Definition match_here (r : regex) (s : str) : option (str * option str) :=
  exec r s None (fun s' cap => Some (s', cap)).

(** [re.search(r, s)], as a truth value: a match at some position. *)
Fixpoint search (r : regex) (s : str) : bool :=
  match match_here r s with
  | Some _ => true
  | None =>
      match s with
      | [] => false
      | _ :: s' => search r s'
      end
  end.

(** [re.findall(r, s)] for a pattern with one group: the text of the group
    in each match, the matches found from left to right without overlap.
    An empty match moves the scan one character on. *)
Fixpoint findall_from (fuel : nat) (r : regex) (s : str) : list str :=
  match fuel with
  | O => []
  | S fuel' =>
      let next := match s with [] => [] | _ :: t => findall_from fuel' r t end in
      match match_here r s with
      | Some (s', cap) =>
          match cap with Some g => g | None => [] end ::
          (if length s' <? length s then findall_from fuel' r s' else next)
      | None => next
      end
  end.

Definition findall (r : regex) (s : str) : list str :=
  findall_from (S (length s)) r s.

(** The literal text [t] as a pattern. *)
Definition text (t : string) : regex :=
  fold_right (fun c r => Cat (Lit c) r) Eps (lit t).

End Re.

(** ** [urllib.parse]

    [urlparse] as far as the program observes it: the scheme and the network
    location of the result, the exceptions raised on the way, and the
    [hostname] attribute.  The later cutting of the rest of the text into
    path, parameters, query and fragment raises nothing and is not read by
    the program; the rest is kept whole. *)

Module Urllib.

Record ParseResult := {
  scheme : str;
  netloc : str;
  rest : str
}.

(** [s.find(c)] *)
Fixpoint find (c : char) (s : str) : option nat :=
  match s with
  | [] => None
  | x :: s' => if (x =? c)%N then Some 0 else option_map S (find c s')
  end.

(** [s.partition(c)]: the text before the first [c], whether [c] was found,
    and the text after it. *)
Fixpoint partition (c : char) (s : str) : str * bool * str :=
  match s with
  | [] => ([], false, [])
  | x :: s' =>
      if (x =? c)%N then ([], true, s')
      else let '(a, found, b) := partition c s' in (x :: a, found, b)
  end.

(** The third component of [s.rpartition(c)]: the text after the last [c],
    the whole of [s] when there is none. *)
Definition rpartition_tail (c : char) (s : str) : str :=
  last_part (split c s).

Definition isalpha_ascii (c : char) : bool :=
  ((65 <=? c) && (c <=? 90) || (97 <=? c) && (c <=? 122))%N.

(** [scheme_chars]: letters, digits and [+-.] *)
Definition scheme_char (c : char) : bool :=
  isalpha_ascii c || ascii_isdigit c ||
  (c =? chr "+")%N || (c =? chr "-")%N || (c =? chr ".")%N.

(** [_WHATWG_C0_CONTROL_OR_SPACE] *)
Definition c0_control_or_space (c : char) : bool := (c <=? 32)%N.

(** [_UNSAFE_URL_BYTES_TO_REMOVE]: tab, carriage return, line feed *)
Definition unsafe_url_byte (c : char) : bool :=
  (c =? 9)%N || (c =? 13)%N || (c =? 10)%N.

(** [_splitnetloc(url, 2)]: the text from position 2 up to the first of
    [/], [?] and [#], and what follows. *)
Fixpoint until_delim (s : str) : str * str :=
  match s with
  | [] => ([], [])
  | c :: s' =>
      if (c =? chr "/")%N || (c =? chr "?")%N || (c =? chr "#")%N then ([], s)
      else let '(a, b) := until_delim s' in (c :: a, b)
  end.

Definition splitnetloc (url : str) : str * str := until_delim (skipn 2 url).

Definition has (c : char) (s : str) : bool := existsb (N.eqb c) s.

End Urllib.

(** ** The database

    The two tables, each as the list of its rows in the order of their
    insertion, and the part of SQL the program uses. *)

Module Db.

(** A reading of [datetime.utcnow()], in microseconds. *)
Definition datetime := Z.

Record URLCheck := {
  url_id : Z;
  url : str;
  url_result : str;
  url_timestamp : datetime
}.

Record EmailCheck := {
  email_id : Z;
  sender : str;
  reply_to : str;
  subject : str;
  body : str;
  email_result : str;
  email_timestamp : datetime
}.

Record Database := {
  url_check : list URLCheck;
  email_check : list EmailCheck
}.

Definition empty : Database := {| url_check := []; email_check := [] |}.

(** The integer primary key given to a new row: one more than the largest
    key of the table, 1 in an empty table. *)
Definition next_id (ids : list Z) : Z := (1 + fold_right Z.max 0 ids)%Z.

(** [db.session.add(URLCheck(url=url, result=result))] and the commit; the
    default of the column [timestamp] reads the clock, [now]. *)
Definition add_url_check (u r : str) (now : datetime) (d : Database)
  : Database :=
  {| url_check :=
       url_check d ++
       [{| url_id := next_id (map url_id (url_check d));
           url := u; url_result := r; url_timestamp := now |}];
     email_check := email_check d |}.

Definition add_email_check (s r subj b res : str) (now : datetime)
           (d : Database) : Database :=
  {| url_check := url_check d;
     email_check :=
       email_check d ++
       [{| email_id := next_id (map email_id (email_check d));
           sender := s; reply_to := r; subject := subj; body := b;
           email_result := res; email_timestamp := now |}] |}.

Section Query.
Context {Row : Type}.
Variable key : Row -> datetime.

(** [a] may stand before [b] in a result ordered by [key] descending. *)
Definition desc (a b : Row) : Prop := (key b <= key a)%Z.

(** [query.order_by(key.desc())]: SQL fixes the result up to the order of
    the rows of equal key. *)
Definition order_by_desc (rows res : list Row) : Prop :=
  Permutation rows res /\ StronglySorted desc res.

(** [.limit(n)] *)
Definition limit (n : nat) (rows : list Row) : list Row := firstn n rows.

(** [query.order_by(key.desc()).limit(n).all()] *)
Definition recent (n : nat) (rows res : list Row) : Prop :=
  exists sorted, order_by_desc rows sorted /\ res = limit n sorted.

(** The order SQLite produces: rows of equal key stay in the order of the
    table. *)
Fixpoint insert_desc (x : Row) (l : list Row) : list Row :=
  match l with
  | [] => [x]
  | y :: l' => if (key y <=? key x)%Z then x :: l else y :: insert_desc x l'
  end.

Definition sort_desc (rows : list Row) : list Row :=
  fold_right insert_desc [] rows.

Definition recent_sqlite (n : nat) (rows : list Row) : list Row :=
  limit n (sort_desc rows).

End Query.

(** The two queries of the route [home], for a limit [n] (the route asks
    for 5). *)
Definition recent_url_checks (n : nat) (d : Database) (res : list URLCheck)
  : Prop := recent url_timestamp n (url_check d) res.



End Db.

(** ** The program *)

Section Program.

Variable rt : Runtime.

(** *** String methods that consult the character database *)

Definition isspace (c : char) : bool :=
  if isascii c then ascii_isspace c else uni_isspace rt c.

(** [s.strip()] *)
Definition strip (s : str) : str :=
  rev (dropwhile isspace (rev (dropwhile isspace s))).

(** [s.lower()]: character by character on ASCII text, where only the
    letters [A] to [Z] change. *)
Definition lower (s : str) : str :=
  if forallb isascii s then map ascii_lower s else uni_lower rt s.

(** The class [\d] of a pattern on text. *)
Definition isdecimal (c : char) : bool :=
  if isascii c then ascii_isdigit c else uni_isdecimal rt c.

(** *** [urlsplit], [urlparse] and [hostname] *)

Definition invalid_ipv6 : exn := ValueError (lit "Invalid IPv6 URL").

Definition invalid_netloc (netloc : str) : exn :=
  ValueError (lit "netloc '" ++ netloc ++
              lit "' contains invalid characters under NFKC normalization").

Definition urlparse (url : str) : outcome Urllib.ParseResult :=
  let url := dropwhile Urllib.c0_control_or_space url in
  let url := filter (fun c => negb (Urllib.unsafe_url_byte c)) url in
  let '(scheme, url) :=
    match Urllib.find (chr ":") url, url with
    | Some (S i), c0 :: _ =>
        if isascii c0 && Urllib.isalpha_ascii c0 &&
           forallb Urllib.scheme_char (firstn (S i) url)
        then (lower (firstn (S i) url), skipn (S (S i)) url)
        else ([], url)
    | _, _ => ([], url)
    end in
  if startswith url (lit "//") then
    let '(netloc, url) := Urllib.splitnetloc url in
    let open := Urllib.has (chr "[") netloc in
    let close := Urllib.has (chr "]") netloc in
    if open && negb close || close && negb open then Raise invalid_ipv6
    else
    match (if open && close then bracketed_check rt netloc else None) with
    | Some e => Raise e
    | None =>
    if negb (forallb isascii netloc) && nfkc_rejects rt netloc
    then Raise (invalid_netloc netloc)
    else Return {| Urllib.scheme := scheme; Urllib.netloc := netloc;
                   Urllib.rest := url |}
    end
  else Return {| Urllib.scheme := scheme; Urllib.netloc := [];
                 Urllib.rest := url |}.

(** [parsed.hostname]: [None] when the network location names no host. *)
Definition hostname (parsed : Urllib.ParseResult) : option str :=
  let hostinfo := Urllib.rpartition_tail (chr "@") (Urllib.netloc parsed) in
  let '(_, have_open_br, bracketed) := Urllib.partition (chr "[") hostinfo in
  let host :=
    if have_open_br
    then fst (fst (Urllib.partition (chr "]") bracketed))
    else fst (fst (Urllib.partition (chr ":") hostinfo)) in
  match host with
  | [] => None
  | _ =>
      let '(h, percent, zone) := Urllib.partition (chr "%") host in
      Some (lower h ++ (if percent then [chr "%"] else []) ++ zone)
  end.

(** *** Rule-based URL detection *)

Definition warning_sign : str := [9888; 65039]%N.
Definition check_mark : str := [9989]%N.

Definition URL_IP : str :=
  warning_sign ++ lit " Phishing Website! (Contains IP address)".
Definition URL_NO_HTTPS : str :=
  warning_sign ++ lit " Phishing Website! (No HTTPS)".
Definition URL_SYMBOLS : str :=
  warning_sign ++ lit " Phishing Website! (Suspicious symbols in URL)".
Definition URL_TOO_LONG : str :=
  warning_sign ++ lit " Phishing Website! (URL too long)".
Definition URL_SUBDOMAIN : str :=
  warning_sign ++ lit " Phishing Website! (Suspicious subdomain pattern)".
Definition URL_LEGITIMATE : str :=
  check_mark ++ lit " Legitimate Website!".

(** [(\d{1,3}\.){3}\d{1,3}] *)
Definition ip_pattern : Re.regex :=
  Re.Cat
    (Re.Rep 3 3 (Re.Group (Re.Cat (Re.Rep 1 3 (Re.Class isdecimal))
                                  (Re.Lit (chr ".")))))
    (Re.Rep 1 3 (Re.Class isdecimal)).

Definition is_phishing_url (url : str) : outcome str :=
  let url := strip url in
  if Re.search ip_pattern url then Return URL_IP
  else if negb (startswith (lower url) (lit "https://")) then
    Return URL_NO_HTTPS
  else if str_in (lit "@") url || str_in (lit "//") (slice_from 8 url) then
    Return URL_SYMBOLS
  else if 75 <? length url then Return URL_TOO_LONG
  else
    match urlparse url with
    | Raise e => Raise e
    | Return parsed =>
        let hostname :=
          match hostname parsed with Some h => h | None => [] end in
        if (3 <=? count (chr ".") hostname) &&
           existsb (fun keyword => str_in keyword hostname)
                   [lit "login"; lit "secure"; lit "account"]
        then Return URL_SUBDOMAIN
        else Return URL_LEGITIMATE
    end.

(** *** Rule-based email detection *)

Definition SUSPICIOUS_KEYWORDS : list str :=
  map lit
    ["urgent"; "verify"; "verify your"; "account"; "password"; "reset";
     "confirm"; "click here"; "login"; "limited time"; "immediately";
     "suspend"; "security alert"; "wire transfer"; "bank"; "ssn"]%string.

(** [https?://] *)
Definition link_pattern : Re.regex :=
  Re.Cat (Re.text "http") (Re.Cat (Re.Opt (Re.Lit (chr "s"))) (Re.text "://")).

Definition contains_link (text : str) : bool := Re.search link_pattern text.

(** The class [[A-Za-z0-9\.-]] *)
Definition domain_char (c : char) : bool :=
  Urllib.isalpha_ascii c || ascii_isdigit c ||
  (c =? chr ".")%N || (c =? chr "-")%N.

(** [https?://([A-Za-z0-9\.-]+)] *)
Definition link_domain_pattern : Re.regex :=
  Re.Cat link_pattern (Re.Group (Re.Plus (Re.Class domain_char))).

Definition extract_domain (email_address : str) : str :=
  match email_address with
  | [] => []
  | _ =>
      let parts := split (chr "@") email_address in
      if 1 <? length parts then lower (last_part parts) else []
  end.

Definition EMAIL_KEYWORD (kw : str) : str :=
  warning_sign ++ lit " Phishing Email! (Found suspicious keyword: '" ++
  kw ++ lit "')".
Definition EMAIL_EXTERNAL_LINK : str :=
  warning_sign ++
  lit " Phishing Email! (Contains external link not matching sender domain)".
Definition EMAIL_LINK : str :=
  warning_sign ++ lit " Phishing Email! (Contains link)".
Definition EMAIL_REPLY_TO : str :=
  warning_sign ++ lit " Phishing Email! (Sender/Reply-To domain mismatch)".
Definition EMAIL_URGENCY : str :=
  warning_sign ++
  lit " Phishing Email! (Excessive urgency/exclamation marks)".
Definition EMAIL_SENSITIVE : str :=
  warning_sign ++ lit " Phishing Email! (Asks for sensitive information)".
Definition EMAIL_LEGITIMATE : str :=
  check_mark ++ lit " Likely Legitimate Email".

Definition nonempty {A : Type} (l : list A) : bool :=
  match l with [] => false | _ => true end.

Definition str_ne (a b : str) : bool :=
  negb (if list_eq_dec N.eq_dec a b then true else false).

(** The test of the loop over the link domains. *)
Definition foreign_link (sender_domain ld : str) : bool :=
  let ld_clean := lower ld in
  negb (str_in sender_domain ld_clean) && negb (str_in ld_clean sender_domain).

Definition SENSITIVE_PHRASES : list str :=
  map lit ["enter your password"; "provide your password";
           "send your password"; "ssn"; "social security"]%string.

(** Rules 3 to 5 and the final verdict, reached when rule 2 returns
    nothing. *)
Definition email_rules_after_links (s r subj body_text : str) : str :=
  if nonempty r &&
     (let sd := extract_domain s in
      let rd := extract_domain r in
      nonempty sd && nonempty rd && str_ne sd rd)
  then EMAIL_REPLY_TO
  else if (3 <=? count (chr "!") body_text) || (2 <=? count (chr "!") subj)
  then EMAIL_URGENCY
  else if existsb (fun word => str_in word body_text) SENSITIVE_PHRASES
  then EMAIL_SENSITIVE
  else EMAIL_LEGITIMATE.

(** The arguments are strings, on which [x or ""] is [x]. *)
Definition is_email_phishing (sender reply_to subject body : str) : str :=
  let s := strip sender in
  let r := strip reply_to in
  let subj := lower subject in
  let body_text := lower body in
  match List.find (fun kw => str_in kw subj || str_in kw body_text)
                  SUSPICIOUS_KEYWORDS with
  | Some kw => EMAIL_KEYWORD kw
  | None =>
      if contains_link body_text then
        let link_domains := Re.findall link_domain_pattern body_text in
        let sender_domain := extract_domain s in
        if nonempty link_domains && nonempty sender_domain then
          if existsb (foreign_link sender_domain) link_domains
          then EMAIL_EXTERNAL_LINK
          else email_rules_after_links s r subj body_text
        else EMAIL_LINK
      else email_rules_after_links s r subj body_text
  end.

(** *** Routes

    The two routes that write to the database, as functions of the form
    fields, of the clock and of the database; a redirect leaves the database
    as it is, an exception of the classifier leaves the route. *)

Definition check_url (form_url : str) (now : Db.datetime) (d : Db.Database)
  : outcome Db.Database :=
  let url := strip form_url in
  match url with
  | [] => Return d
  | _ =>
      match is_phishing_url url with
      | Raise e => Raise e
      | Return result => Return (Db.add_url_check url result now d)
      end
  end.

Definition check_email (form_sender form_reply_to form_subject form_body : str)
           (now : Db.datetime) (d : Db.Database) : outcome Db.Database :=
  let sender := strip form_sender in
  let reply_to := strip form_reply_to in
  let subject := strip form_subject in
  let body := strip form_body in
  match sender with
  | [] => Return d
  | _ =>
      let result := is_email_phishing sender reply_to subject body in
      Return (Db.add_email_check sender reply_to subject body result now d)
  end.

End Program.

(** ** Vocabulary of the properties *)

(** The closed sets of verdicts. *)
Definition URL_VERDICTS : list str :=
  [URL_IP; URL_NO_HTTPS; URL_SYMBOLS; URL_TOO_LONG; URL_SUBDOMAIN;
   URL_LEGITIMATE].

Definition EMAIL_VERDICTS : list str :=
  [EMAIL_EXTERNAL_LINK; EMAIL_LINK; EMAIL_REPLY_TO; EMAIL_URGENCY;
   EMAIL_SENSITIVE; EMAIL_LEGITIMATE] ++
  map EMAIL_KEYWORD SUSPICIOUS_KEYWORDS.

Definition is_some {A : Type} (o : option A) : bool :=
  match o with Some _ => true | None => false end.

(** The last row of a table. *)
Definition last_error {A : Type} (l : list A) : option A :=
  match rev l with [] => None | x :: _ => Some x end.

(** A check as the route stores it: the text, the verdict and the reading
    of the clock. *)
Definition submission : Type := str * str * Db.datetime.

(** Several checks stored one after the other. *)
Definition add_url_checks (subs : list submission) (d : Db.Database)
  : Db.Database :=
  fold_left (fun d '(u, r, now) => Db.add_url_check u r now d) subs d.

Definition url_fields (row : Db.URLCheck) : submission :=
  (Db.url row, Db.url_result row, Db.url_timestamp row).

(** The order the specification asks of a history: newest first, and among
    rows of one timestamp the larger id first. *)
Definition newest_first_by_id (a b : Db.URLCheck) : Prop :=
  (Db.url_timestamp b < Db.url_timestamp a)%Z \/
  (Db.url_timestamp b = Db.url_timestamp a /\ Db.url_id b < Db.url_id a)%Z.

(** Two checks stored at one reading of the clock. *)
Definition tied_db : Db.Database :=
  Db.add_url_check (lit "https://b.example") URL_LEGITIMATE 0%Z
    (Db.add_url_check (lit "https://a.example") URL_LEGITIMATE 0%Z Db.empty).

(** Ten checks stored at the clock readings 1 to 10. *)
Definition ten_checks : list submission :=
  map (fun n => (lit "https://example.com", URL_LEGITIMATE, Z.of_nat n))
      (seq 1 10).

(** The databases the program can hold: the empty one that [create_all]
    makes, and those the two writing routes lead to (the route [home] only
    reads). *)
Inductive reachable (rt : Runtime) : Db.Database -> Prop :=
| reach_empty : reachable rt Db.empty
| reach_check_url (d d' : Db.Database) (form_url : str) (now : Db.datetime) :
    reachable rt d ->
    check_url rt form_url now d = Return d' ->
    reachable rt d'
| reach_check_email (d d' : Db.Database)
                    (form_sender form_reply_to form_subject form_body : str)
                    (now : Db.datetime) :
    reachable rt d ->
    check_email rt form_sender form_reply_to form_subject form_body now d
    = Return d' ->
    reachable rt d'.


(** The timestamps of a table do not decrease along its rows, and none is
    later than [now]. *)
Definition timestamps_ordered (now : Db.datetime) (ts : list Db.datetime)
  : Prop :=
  StronglySorted Z.le ts /\ Forall (fun t => (t <= now)%Z) ts.

(** A character of ASCII that is no square bracket. *)
Definition plain_char (c : char) : Prop :=
  isascii c = true /\ c <> chr "[" /\ c <> chr "]".

(** *** The texts a pattern matches

    The language of a pattern, against which the matcher is checked. *)

(** [n] texts of [L], one after the other. *)
Fixpoint power (L : str -> Prop) (n : nat) (m : str) : Prop :=
  match n with
  | O => m = []
  | S n' => exists a b, m = a ++ b /\ L a /\ power L n' b
  end.

Fixpoint lang (r : Re.regex) (m : str) : Prop :=
  match r with
  | Re.Eps => m = []
  | Re.Lit c => m = [c]
  | Re.Class p => exists x, m = [x] /\ p x = true
  | Re.Cat r1 r2 => exists a b, m = a ++ b /\ lang r1 a /\ lang r2 b
  | Re.Opt r1 => m = [] \/ lang r1 m
  | Re.Rep lo hi r1 => exists n, lo <= n <= hi /\ power (lang r1) n m
  | Re.Plus r1 => exists n, power (lang r1) (S n) m
  | Re.Group r1 => lang r1 m
  end.

(** The patterns on which the matcher decides the language: the bounds of a
    repetition are in order, and the body of [+] matches no empty text. *)
Fixpoint well_formed (r : Re.regex) : Prop :=
  match r with
  | Re.Cat r1 r2 => well_formed r1 /\ well_formed r2
  | Re.Opt r1 => well_formed r1
  | Re.Rep lo hi r1 => lo <= hi /\ well_formed r1
  | Re.Plus r1 => well_formed r1 /\ forall m, lang r1 m -> m <> []
  | Re.Group r1 => well_formed r1
  | _ => True
  end.

(** The two loops of the matcher, by themselves. *)
Section Loops.
Context {A : Type}.
Variable body : str -> option str -> (str -> option str -> option A) -> option A.
Variable k : str -> option str -> option A.

Fixpoint rep_loop (lo hi : nat) (s : str) (cap : option str) {struct hi}
  : option A :=
  match hi with
  | O => k s cap
  | S hi' =>
      match body s cap (fun s' cap' => rep_loop (pred lo) hi' s' cap') with
      | Some x => Some x
      | None => if Nat.eqb lo 0 then k s cap else None
      end
  end.

Fixpoint plus_loop (fuel : nat) (s : str) (cap : option str) {struct fuel}
  : option A :=
  match fuel with
  | O => None
  | S fuel' =>
      body s cap (fun s' cap' =>
        match plus_loop fuel' s' cap' with
        | Some x => Some x
        | None => k s' cap'
        end)
  end.

End Loops.

(** A continuation whose success does not depend on the capture. *)
Definition cap_blind {A : Type} (k : str -> option str -> option A) : Prop :=
  forall s c1 c2, is_some (k s c1) = is_some (k s c2).

(** A group of one to three digits. *)
Definition digit_group (rt : Runtime) (g : str) : Prop :=
  1 <= length g <= 3 /\ forallb (isdecimal rt) g = true.

Fixpoint takewhile (p : char -> bool) (s : str) : str :=
  match s with
  | [] => []
  | c :: s' => if p c then c :: takewhile p s' else []
  end.

(** A text of [L] at the head of [s], with a rest that [k] accepts. *)
Definition accepts {A : Type} (k : str -> option str -> option A)
           (L : str -> Prop) (s : str) : Prop :=
  exists m s', s = m ++ s' /\ L m /\ is_some (k s' None) = true.

(** The host at the head of a text: the longest run of host characters,
    when there is one, and the rest of the text. *)
Definition host_here (s : str) : option (str * option str) :=
  match s with
  | [] => None
  | c :: t =>
      if domain_char c
      then Some (dropwhile domain_char t, Some (c :: takewhile domain_char t))
      else None
  end.

(** [g] is a host of a link of [text]: a run of host characters that is not
    empty, stands right after [http://] or [https://], and is followed by
    no host character. *)
Definition host_of_link (text g : str) : Prop :=
  g <> [] /\ forallb domain_char g = true /\
  exists before scheme after,
    (scheme = lit "http://" \/ scheme = lit "https://") /\
    text = before ++ scheme ++ g ++ after /\
    match after with [] => True | c :: _ => domain_char c = false end.

(** The rules of the URL classifier as the specification lists them: each
    rule is a test of the trimmed text and the verdict it gives, in the
    order of evaluation.  Rule 5 holds when [urlparse] returns and the host
    name has three dots or more and one of the three words. *)
Definition rule_ip (rt : Runtime) (u : str) : bool :=
  Re.search (ip_pattern rt) u.

Definition rule_no_https (rt : Runtime) (u : str) : bool :=
  negb (startswith (lower rt u) (lit "https://")).

Definition rule_symbols (u : str) : bool :=
  str_in (lit "@") u || str_in (lit "//") (slice_from 8 u).

Definition rule_too_long (u : str) : bool := 75 <? length u.

Definition rule_subdomain (rt : Runtime) (u : str) : bool :=
  match urlparse rt u with
  | Raise _ => false
  | Return parsed =>
      let hostname :=
        match hostname rt parsed with Some h => h | None => [] end in
      (3 <=? count (chr ".") hostname) &&
      existsb (fun keyword => str_in keyword hostname)
              [lit "login"; lit "secure"; lit "account"]
  end.

Definition URL_RULES (rt : Runtime) : list ((str -> bool) * str) :=
  [(rule_ip rt, URL_IP);
   (rule_no_https rt, URL_NO_HTTPS);
   (rule_symbols, URL_SYMBOLS);
   (rule_too_long, URL_TOO_LONG);
   (rule_subdomain rt, URL_SUBDOMAIN)].

(** Texts on which two rules hold at once. *)
Definition url_ip_and_no_https : str := lit "http://1.2.3.4/".
Definition url_no_https_and_symbols : str := lit "http://user@host.example/".
Definition url_symbols_and_too_long : str :=
  lit "https://user@host.example/" ++ repeat (chr "a") 60.
Definition url_too_long_and_subdomain : str :=
  lit "https://login.a.b.c.example/" ++ repeat (chr "a") 60.


(** * Properties *)

(** ** Substrings *)

Lemma startswith_iff (s p : str) :
  startswith s p = true <-> exists r, s = p ++ r.
Proof.
  revert s; induction p as [|a p IH]; intros s; simpl.
  - split; [exists s; reflexivity | reflexivity].
  - destruct s as [|b s].
    + split; [discriminate | intros [r Hr]; discriminate].
    + rewrite andb_true_iff, N.eqb_eq, IH. split.
      * intros [-> [r ->]]. exists r; reflexivity.
      * intros [r Hr]. injection Hr as -> ->. split; [reflexivity | eauto].
Qed.

Lemma str_in_iff (p s : str) :
  str_in p s = true <-> exists l r, s = l ++ p ++ r.
Proof.
  induction s as [|c s IH]; simpl.
  - rewrite orb_false_r, startswith_iff. split.
    + intros [r Hr]. exists [], r. exact Hr.
    + intros [l [r Hr]]. destruct l; [exists r; exact Hr | discriminate].
  - rewrite orb_true_iff, startswith_iff, IH. split.
    + intros [[r Hr] | [l [r Hr]]].
      * exists [], r. exact Hr.
      * exists (c :: l), r. rewrite Hr. reflexivity.
    + intros [[|x l] [r Hr]].
      * left. exists r. exact Hr.
      * right. injection Hr as _ ->. eauto.
Qed.

Lemma str_in_trans (a b s : str) :
  str_in a b = true -> str_in b s = true -> str_in a s = true.
Proof.
  rewrite !str_in_iff. intros [l1 [r1 ->]] [l2 [r2 ->]].
  exists (l2 ++ l1), (r1 ++ r2). now rewrite <- !app_assoc.
Qed.

Lemma str_in_absent (a b s : str) :
  str_in a b = true -> str_in a s = false -> str_in b s = false.
Proof.
  intros Hab Has. destruct (str_in b s) eqn:Hbs; [|reflexivity].
  now rewrite (str_in_trans _ _ _ Hab Hbs) in Has.
Qed.

(** ** Splitting at a separator *)

Lemma split_without_sep (sep : char) (s : str) :
  count sep s = 0 -> split sep s = [s].
Proof.
  induction s as [|c s IH]; simpl; [reflexivity|].
  destruct (c =? sep)%N; [discriminate|].
  intros H. rewrite (IH H). reflexivity.
Qed.

Lemma split_at_last_sep (sep : char) (pre suf : str) :
  count sep suf = 0 ->
  exists p parts, split sep (pre ++ sep :: suf) = (p :: parts) ++ [suf].
Proof.
  intros H. induction pre as [|c pre [p [parts IH]]]; simpl.
  - rewrite N.eqb_refl, (split_without_sep _ _ H). exists [], []. reflexivity.
  - rewrite IH. destruct (c =? sep)%N.
    + exists [], (p :: parts). reflexivity.
    + exists (c :: p), parts. reflexivity.
Qed.

(** ** Loops that return at the first hit *)


Lemma find_some_first {A : Type} (f : A -> bool) (l : list A) (x : A) :
  List.find f l = Some x ->
  exists before after,
    l = before ++ x :: after /\ f x = true /\
    forall y, In y before -> f y = false.
Proof.
  induction l as [|a l IH]; simpl; [discriminate|].
  destruct (f a) eqn:E.
  - intros [= ->]. exists [], l. repeat split; [exact E | intros y []].
  - intros H. destruct (IH H) as [before [after [-> [Hx Hb]]]].
    exists (a :: before), after. repeat split; [exact Hx|].
    intros y [<- | Hy]; [exact E | now apply Hb].
Qed.

(** ** Verdict texts *)

(** Two verdict texts that differ after evaluation. *)
Ltac verdict_neq H := vm_compute in H; discriminate H.

Lemma email_rules_after_links_cases (rt : Runtime) (s r subj body_text : str) :
  let v := email_rules_after_links rt s r subj body_text in
  v = EMAIL_REPLY_TO \/ v = EMAIL_URGENCY \/
  (v = EMAIL_SENSITIVE /\
   existsb (fun word => str_in word body_text) SENSITIVE_PHRASES = true) \/
  v = EMAIL_LEGITIMATE.
Proof.
  unfold email_rules_after_links.
  destruct (nonempty r && _); [now left|].
  destruct (_ || _); [now right; left|].
  destruct (existsb _ _) eqn:E; [right; right; left; now split|].
  now right; right; right.
Qed.

Lemma keyword_absent (subj body_text kw : str) :
  List.find (fun kw => str_in kw subj || str_in kw body_text)
            SUSPICIOUS_KEYWORDS = None ->
  In kw SUSPICIOUS_KEYWORDS ->
  str_in kw subj = false /\ str_in kw body_text = false.
Proof.
  intros Hf Hin. apply orb_false_iff.
  exact (find_none _ _ Hf kw Hin).
Qed.

(** ** The link pattern *)

(** One step of the symbolic run of a pattern of literal characters: the
    next character of the text, then its comparison with the literal. *)
Ltac literal_step :=
  match goal with
  | |- context [match ?s with [] => _ | _ :: _ => _ end] =>
      is_var s; destruct s as [|? ?]; simpl; try reflexivity
  | |- context [(?c =? ?k)%N] =>
      is_var c;
      let E := fresh "E" in
      destruct (c =? k)%N eqn:E;
      [apply N.eqb_eq in E; subst c | ]; simpl; try reflexivity
  end.

(** [https?://] matches at the head of a text exactly when the text starts
    with [http://] or with [https://]. *)
Lemma link_pattern_here (s : str) :
  is_some (Re.match_here link_pattern s)
  = startswith s (lit "http://") || startswith s (lit "https://").
Proof.
  unfold Re.match_here, link_pattern. simpl.
  repeat literal_step.
Qed.

Lemma search_cons (r : Re.regex) (c : char) (s : str) :
  Re.search r (c :: s) = is_some (Re.match_here r (c :: s)) || Re.search r s.
Proof.
  cbn [Re.search]. now destruct (Re.match_here r (c :: s)).
Qed.

Lemma str_in_cons (p : str) (c : char) (s : str) :
  str_in p (c :: s) = startswith (c :: s) p || str_in p s.
Proof. reflexivity. Qed.

Lemma search_link_pattern (text : str) :
  Re.search link_pattern text
  = str_in (lit "http://") text || str_in (lit "https://") text.
Proof.
  induction text as [|c text IH].
  - reflexivity.
  - rewrite search_cons, link_pattern_here, IH, !str_in_cons.
    destruct (startswith (c :: text) (lit "http://")),
             (startswith (c :: text) (lit "https://")),
             (str_in (lit "http://") text),
             (str_in (lit "https://") text); reflexivity.
Qed.

Lemma find_all_false {A : Type} (f : A -> bool) (l : list A) :
  (forall x, In x l -> f x = false) -> List.find f l = None.
Proof.
  induction l as [|x l IH]; simpl; intros H; [reflexivity|].
  rewrite (H x (or_introl eq_refl)). apply IH. intros y Hy. apply H. now right.
Qed.

Lemma nonempty_true {A : Type} (l : list A) : l <> [] -> nonempty l = true.
Proof. destruct l; [congruence | reflexivity]. Qed.

Lemma email_rules_after_links_verdict (rt : Runtime) (s r subj b : str) :
  In (email_rules_after_links rt s r subj b) EMAIL_VERDICTS.
Proof.
  destruct (email_rules_after_links_cases rt s r subj b)
    as [E | [E | [[E _] | E]]]; rewrite E; simpl; tauto.
Qed.

Lemma is_email_phishing_verdict (rt : Runtime) (s r subj b : str) :
  In (is_email_phishing rt s r subj b) EMAIL_VERDICTS.
Proof.
  unfold is_email_phishing.
  destruct (List.find _ SUSPICIOUS_KEYWORDS) as [kw|] eqn:Hfind.
  - apply find_some in Hfind. destruct Hfind as [Hin _].
    unfold EMAIL_VERDICTS. apply in_or_app. right. now apply in_map.
  - destruct (contains_link _);
      [|apply email_rules_after_links_verdict].
    destruct (nonempty _ && nonempty _); [|simpl; tauto].
    destruct (existsb _ _);
      [simpl; tauto | apply email_rules_after_links_verdict].
Qed.

Lemma is_phishing_url_verdict (rt : Runtime) (url v : str) :
  is_phishing_url rt url = Return v -> In v URL_VERDICTS.
Proof.
  unfold is_phishing_url.
  destruct (Re.search _ _); [intros [= <-]; simpl; tauto|].
  destruct (negb _); [intros [= <-]; simpl; tauto|].
  destruct (_ || _); [intros [= <-]; simpl; tauto|].
  destruct (75 <? _); [intros [= <-]; simpl; tauto|].
  destruct (urlparse rt _); [|discriminate].
  destruct (_ && _); intros [= <-]; simpl; tauto.
Qed.

Lemma last_error_snoc {A : Type} (l : list A) (x : A) :
  last_error (l ++ [x]) = Some x.
Proof. unfold last_error. now rewrite rev_app_distr. Qed.

(** ** Queries ordered by a key, descending *)

Section QueryFacts.
Context {Row : Type}.
Variable key : Row -> Db.datetime.

Local Abbreviation desc := (Db.desc key).
Local Abbreviation order_by_desc := (Db.order_by_desc key).
Local Abbreviation recent := (Db.recent key).

Lemma insert_desc_perm (x : Row) (l : list Row) :
  Permutation (x :: l) (Db.insert_desc key x l).
Proof.
  induction l as [|y l IH]; simpl; [reflexivity|].
  destruct (key y <=? key x)%Z; [reflexivity|].
  rewrite perm_swap. now constructor.
Qed.

Lemma insert_desc_sorted (x : Row) (l : list Row) :
  StronglySorted desc l -> StronglySorted desc (Db.insert_desc key x l).
Proof.
  induction 1 as [|y l Hs IH Hy]; simpl.
  - repeat constructor.
  - destruct (key y <=? key x)%Z eqn:E.
    + apply Z.leb_le in E. constructor; [now constructor|].
      constructor; [exact E|].
      eapply Forall_impl; [|exact Hy]. unfold Db.desc. intros; lia.
    + apply Z.leb_gt in E. constructor; [exact IH|].
      apply (Permutation_Forall (insert_desc_perm x l)).
      constructor; [unfold Db.desc; lia | exact Hy].
Qed.

Lemma sort_desc_order_by (rows : list Row) :
  order_by_desc rows (Db.sort_desc key rows).
Proof.
  induction rows as [|x rows [Hp Hs]]; simpl.
  - split; constructor.
  - split.
    + rewrite <- insert_desc_perm. now constructor.
    + now apply insert_desc_sorted.
Qed.

(** The order of SQLite is one of the orders SQL allows. *)
Lemma recent_sqlite_recent (n : nat) (rows : list Row) :
  recent n rows (Db.recent_sqlite key n rows).
Proof.
  exists (Db.sort_desc key rows). split; [apply sort_desc_order_by | reflexivity].
Qed.

Lemma sorted_app_inv (R : Row -> Row -> Prop) (l1 l2 : list Row) :
  StronglySorted R (l1 ++ l2) ->
  StronglySorted R l1 /\ StronglySorted R l2 /\
  forall x y, In x l1 -> In y l2 -> R x y.
Proof.
  induction l1 as [|a l1 IH]; simpl; intros H.
  - repeat split; [constructor | exact H | intros x y []].
  - inversion H as [|? ? Hs Ha]; subst.
    destruct (IH Hs) as [H1 [H2 H3]].
    rewrite Forall_app in Ha. destruct Ha as [Ha1 Ha2].
    repeat split; [now constructor | exact H2 |].
    intros x y [<- | Hx] Hy; [|now apply H3].
    rewrite Forall_forall in Ha2. now apply Ha2.
Qed.

Lemma recent_length (n : nat) (rows res : list Row) :
  recent n rows res -> length res = Nat.min n (length rows).
Proof.
  intros [sorted [[Hp _] ->]]. unfold Db.limit.
  now rewrite length_firstn, (Permutation_length Hp).
Qed.

Lemma recent_sorted (n : nat) (rows res : list Row) :
  recent n rows res -> StronglySorted desc res.
Proof.
  intros [sorted [[_ Hs] ->]]. unfold Db.limit.
  rewrite <- (firstn_skipn n sorted) in Hs.
  now apply sorted_app_inv in Hs.
Qed.

(** The rows a query leaves out are not newer than the rows it returns. *)
Lemma recent_newest (n : nat) (rows res : list Row) :
  recent n rows res ->
  exists others, Permutation rows (res ++ others) /\
                 forall x y, In x res -> In y others -> (key y <= key x)%Z.
Proof.
  intros [sorted [[Hp Hs] ->]]. exists (skipn n sorted). unfold Db.limit.
  rewrite firstn_skipn. split; [exact Hp|].
  rewrite <- (firstn_skipn n sorted) in Hs.
  now apply sorted_app_inv in Hs.
Qed.

(** A row newer than every row of the table comes first. *)
Lemma order_by_desc_newer (rows sorted : list Row) (x : Row) :
  (forall r, In r rows -> (key r < key x)%Z) ->
  order_by_desc (rows ++ [x]) sorted ->
  exists older, sorted = x :: older /\ order_by_desc rows older.
Proof.
  intros Hnew [Hp Hs].
  assert (Hx : In x sorted).
  { apply (Permutation_in _ Hp), in_or_app. right. now left. }
  destruct sorted as [|h t]; [destruct Hx|].
  assert (Hh : h = x).
  { assert (In h (rows ++ [x])) as Hin.
    { apply (Permutation_in _ (Permutation_sym Hp)). now left. }
    apply in_app_or in Hin. destruct Hin as [Hin | [Hin | []]]; [|exact (eq_sym Hin)].
    destruct Hx as [Hx | Hx]; [exact Hx|].
    inversion Hs as [|? ? _ Hall]; subst. rewrite Forall_forall in Hall.
    specialize (Hall x Hx). specialize (Hnew h Hin). unfold Db.desc in Hall. lia. }
  subst h. exists t. split; [reflexivity|]. split.
  - apply Permutation_cons_inv with (a := x).
    rewrite <- Hp. apply Permutation_cons_append.
  - now inversion Hs.
Qed.

(** Rows appended with increasing keys, all above the keys of the table,
    come first, the last appended first. *)
Lemma order_by_desc_appended (rows news sorted : list Row) :
  StronglySorted (fun a b => (key a < key b)%Z) news ->
  (forall r x, In r rows -> In x news -> (key r < key x)%Z) ->
  order_by_desc (rows ++ news) sorted ->
  exists older, sorted = rev news ++ older /\ order_by_desc rows older.
Proof.
  revert sorted. induction news as [|x news IH] using rev_ind;
    intros sorted Hinc Hold Hord.
  - exists sorted. rewrite app_nil_r in Hord. now split.
  - apply sorted_app_inv in Hinc. destruct Hinc as [Hinc [_ Hlast]].
    rewrite app_assoc in Hord.
    apply order_by_desc_newer in Hord.
    + destruct Hord as [s1 [-> Hord]].
      destruct (IH s1 Hinc) as [older [-> Ho]]; [|exact Hord|].
      * intros r y Hr Hy. apply Hold; [exact Hr | apply in_or_app; now left].
      * exists older. rewrite rev_app_distr. now split.
    + intros r Hr. apply in_app_or in Hr. destruct Hr as [Hr | Hr].
      * apply Hold; [exact Hr | apply in_or_app; right; now left].
      * apply Hlast; [exact Hr | now left].
Qed.

End QueryFacts.

(** ** A URL without a host *)

(** What the program guards: when [urlparse] returns and the result names
    no host, a text that passes rules 1 to 4 is legitimate. *)
Lemma is_phishing_url_no_hostname (rt : Runtime) (url : str)
      (parsed : Urllib.ParseResult) :
  Re.search (ip_pattern rt) (strip rt url) = false ->
  startswith (lower rt (strip rt url)) (lit "https://") = true ->
  str_in (lit "@") (strip rt url) ||
  str_in (lit "//") (slice_from 8 (strip rt url)) = false ->
  length (strip rt url) <= 75 ->
  urlparse rt (strip rt url) = Return parsed ->
  hostname rt parsed = None ->
  is_phishing_url rt url = Return URL_LEGITIMATE.
Proof.
  intros H1 H2 H3 H4 H5 H6. unfold is_phishing_url.
  rewrite H1, H2, H3, H5, H6. simpl.
  apply Nat.ltb_ge in H4. now rewrite H4.
Qed.

Example is_phishing_url_empty_netloc (rt : Runtime) :
  is_phishing_url rt (lit "https:///login") = Return URL_LEGITIMATE.
Proof. reflexivity. Qed.

(** ** The rules of the URL classifier, one after the other *)

Lemma is_phishing_url_rules (rt : Runtime) (url : str) :
  is_phishing_url rt url
  = let u := strip rt url in
    if rule_ip rt u then Return URL_IP
    else if rule_no_https rt u then Return URL_NO_HTTPS
    else if rule_symbols u then Return URL_SYMBOLS
    else if rule_too_long u then Return URL_TOO_LONG
    else match urlparse rt u with
         | Raise e => Raise e
         | Return _ =>
             if rule_subdomain rt u then Return URL_SUBDOMAIN
             else Return URL_LEGITIMATE
         end.
Proof.
  cbv zeta.
  unfold is_phishing_url, rule_ip, rule_no_https, rule_symbols, rule_too_long,
    rule_subdomain.
  destruct (Re.search _ _); [reflexivity|].
  destruct (negb _); [reflexivity|].
  destruct (_ || _); [reflexivity|].
  destruct (75 <? _); [reflexivity|].
  now destruct (urlparse rt (strip rt url)).
Qed.

Section Properties.

Variable rt : Runtime.

(** ** The URL classifier *)

(** C2. The rules of the URL classifier form an ordered decision list in
    which the first rule that holds decides: whichever rule of the list
    holds of the trimmed text while none of the rules before it holds, the
    verdict is the one of that rule, whatever the rules after it would say;
    when no rule holds and [urlparse] returns, the verdict is "legitimate".
    So a dotted quad gives "Contains IP address" before any other rule is
    looked at, as for [https://1.2.3.4/login], which passes the HTTPS test;
    and on a text on which two rules hold, the earlier one decides. *)
Theorem is_phishing_url_first_rule_wins :
  (forall url before rule after,
      URL_RULES rt = before ++ rule :: after ->
      fst rule (strip rt url) = true ->
      (forall r, In r before -> fst r (strip rt url) = false) ->
      is_phishing_url rt url = Return (snd rule)) /\
  (forall url parsed,
      (forall r, In r (URL_RULES rt) -> fst r (strip rt url) = false) ->
      urlparse rt (strip rt url) = Return parsed ->
      is_phishing_url rt url = Return URL_LEGITIMATE) /\
  (forall url, Re.search (ip_pattern rt) (strip rt url) = true ->
               is_phishing_url rt url = Return URL_IP) /\
  (is_phishing_url rt (lit "https://1.2.3.4/login") = Return URL_IP /\
   startswith (lower rt (lit "https://1.2.3.4/login")) (lit "https://") = true) /\
  (rule_no_https rt url_ip_and_no_https = true /\
   is_phishing_url rt url_ip_and_no_https = Return URL_IP) /\
  (rule_symbols url_no_https_and_symbols = true /\
   is_phishing_url rt url_no_https_and_symbols = Return URL_NO_HTTPS) /\
  (rule_too_long url_symbols_and_too_long = true /\
   is_phishing_url rt url_symbols_and_too_long = Return URL_SYMBOLS) /\
  (rule_subdomain rt url_too_long_and_subdomain = true /\
   is_phishing_url rt url_too_long_and_subdomain = Return URL_TOO_LONG).
Proof.
  split; [|split; [|split; [|repeat split; reflexivity]]].
  - intros url before rule after Hl Hrule Hbefore.
    rewrite is_phishing_url_rules. cbv zeta. unfold URL_RULES in Hl.
    destruct before as [|r1 before]; [injection Hl as <- _|injection Hl as <- Hl].
    { simpl in Hrule. now rewrite Hrule. }
    pose proof (Hbefore _ (or_introl eq_refl)) as H1. simpl in H1. rewrite H1.
    destruct before as [|r2 before]; [injection Hl as <- _|injection Hl as <- Hl].
    { simpl in Hrule. now rewrite Hrule. }
    pose proof (Hbefore _ (or_intror (or_introl eq_refl))) as H2.
    simpl in H2. rewrite H2.
    destruct before as [|r3 before]; [injection Hl as <- _|injection Hl as <- Hl].
    { simpl in Hrule. now rewrite Hrule. }
    pose proof (Hbefore _ (or_intror (or_intror (or_introl eq_refl)))) as H3.
    simpl in H3. rewrite H3.
    destruct before as [|r4 before]; [injection Hl as <- _|injection Hl as <- Hl].
    { simpl in Hrule. now rewrite Hrule. }
    pose proof (Hbefore _ (or_intror (or_intror (or_intror (or_introl eq_refl)))))
      as H4.
    simpl in H4. rewrite H4.
    destruct before as [|r5 before]; [injection Hl as <- _|].
    { simpl in Hrule. rewrite Hrule.
      destruct (urlparse rt (strip rt url)) eqn:E; [reflexivity|].
      unfold rule_subdomain in Hrule. rewrite E in Hrule. discriminate Hrule. }
    injection Hl as _ Hl. destruct before; discriminate Hl.
  - intros url parsed Hnone Hparse. rewrite is_phishing_url_rules. cbv zeta.
    assert (H : forall r, In r (URL_RULES rt) -> fst r (strip rt url) = false)
      by exact Hnone.
    unfold URL_RULES in H.
    pose proof (H _ (or_introl eq_refl)) as H1.
    pose proof (H _ (or_intror (or_introl eq_refl))) as H2.
    pose proof (H _ (or_intror (or_intror (or_introl eq_refl)))) as H3.
    pose proof (H _ (or_intror (or_intror (or_intror (or_introl eq_refl)))))
      as H4.
    pose proof (H _ (or_intror (or_intror (or_intror (or_intror
                       (or_introl eq_refl)))))) as H5.
    simpl in H1, H2, H3, H4, H5.
    now rewrite H1, H2, H3, H4, Hparse, H5.
  - intros url H. unfold is_phishing_url. now rewrite H.
Qed.

(** C3. A text that is empty once trimmed does not make the URL classifier
    fail: the pattern of the IP rule is not found in the empty text, the
    empty text does not start with [https://], and the verdict is
    "No HTTPS". *)
Theorem is_phishing_url_empty (url : str) :
  strip rt url = [] -> is_phishing_url rt url = Return URL_NO_HTTPS.
Proof.
  intros H. unfold is_phishing_url. rewrite H. reflexivity.
Qed.

(** C1. The text [https://[] passes rules 1 to 4 (no dotted quad, the HTTPS
    prefix, no [@] and no second [//], nine characters), its network
    location [[] holds an opening bracket without the closing one, so
    [urlparse] raises [ValueError], and the classifier, which calls
    [urlparse] unguarded, raises it too instead of returning the
    "legitimate" verdict. *)
Theorem is_phishing_url_raises_on_open_bracket :
  let url := lit "https://[" in
  strip rt url = url /\
  Re.search (ip_pattern rt) url = false /\
  startswith (lower rt url) (lit "https://") = true /\
  str_in (lit "@") url || str_in (lit "//") (slice_from 8 url) = false /\
  (75 <? length url) = false /\
  urlparse rt url = Raise invalid_ipv6 /\
  is_phishing_url rt url = Raise invalid_ipv6.
Proof.
  cbv zeta. repeat split; reflexivity.
Qed.

(** ** The email classifier *)

(** C6. [extract_domain] gives the empty text for an address without [@]
    (the empty address among them), and for an address with an [@] the
    lowercased text that follows the last one; so [user@Example.COM] gives
    [example.com] and [noatsign] the empty text. *)
Theorem extract_domain_spec :
  (forall address, count (chr "@") address = 0 ->
                   extract_domain rt address = []) /\
  (forall pre suf, count (chr "@") suf = 0 ->
                   extract_domain rt (pre ++ chr "@" :: suf) = lower rt suf) /\
  extract_domain rt (lit "user@Example.COM") = lit "example.com" /\
  extract_domain rt (lit "noatsign") = [].
Proof.
  split; [|split; [|split; reflexivity]].
  - intros [|c a] H; [reflexivity|].
    unfold extract_domain. now rewrite (split_without_sep _ _ H).
  - intros pre suf H.
    destruct (split_at_last_sep (chr "@") pre suf H) as [p [parts Hs]].
    unfold extract_domain. rewrite Hs.
    replace (1 <? length ((p :: parts) ++ [suf])) with true.
    + unfold last_part. rewrite last_last.
      destruct pre; reflexivity.
    + symmetry. apply Nat.ltb_lt. rewrite length_app. simpl. lia.
Qed.


(** C10. The verdict "Asks for sensitive information" is returned only
    for a body whose lowercased text holds [social security]: each of the
    other phrases of rule 5 holds the keyword [password] or is the keyword
    [ssn], so that rule 1 has returned before rule 5 is reached. *)
Theorem sensitive_verdict_only_social_security
        (sender reply_to subject body : str) :
  is_email_phishing rt sender reply_to subject body = EMAIL_SENSITIVE ->
  str_in (lit "social security") (lower rt body) = true.
Proof.
  unfold is_email_phishing.
  set (subj := lower rt subject). set (body_text := lower rt body).
  destruct (List.find _ SUSPICIOUS_KEYWORDS) as [kw|] eqn:Hfind.
  { intros H. verdict_neq H. }
  assert (Hpw : str_in (lit "password") body_text = false).
  { apply (keyword_absent subj body_text _ Hfind). simpl. tauto. }
  assert (Hssn : str_in (lit "ssn") body_text = false).
  { apply (keyword_absent subj body_text _ Hfind). simpl. tauto. }
  assert (Hrest : email_rules_after_links rt (strip rt sender)
                    (strip rt reply_to) subj body_text = EMAIL_SENSITIVE ->
                  str_in (lit "social security") body_text = true).
  { intros H.
    destruct (email_rules_after_links_cases rt (strip rt sender)
                (strip rt reply_to) subj body_text)
      as [E | [E | [[_ E] | E]]];
      try (rewrite E in H; verdict_neq H).
    unfold SENSITIVE_PHRASES in E. simpl in E.
    rewrite (str_in_absent (lit "password") (lit "enter your password")
               body_text eq_refl Hpw) in E.
    rewrite (str_in_absent (lit "password") (lit "provide your password")
               body_text eq_refl Hpw) in E.
    rewrite (str_in_absent (lit "password") (lit "send your password")
               body_text eq_refl Hpw) in E.
    rewrite Hssn in E. simpl in E.
    now rewrite orb_false_r in E. }
  destruct (contains_link body_text); [|exact Hrest].
  destruct (nonempty _ && nonempty _).
  - destruct (existsb _ _); [intros H; verdict_neq H | exact Hrest].
  - intros H. verdict_neq H.
Qed.

(** C5. The link rule.  When no keyword occurs in the lowercased subject
    or body and the lowercased body holds [http://] or [https://]: with at
    least one link host extracted and a sender domain that is not empty, the
    verdict is "external link not matching sender domain" exactly when one
    of the hosts neither holds the sender domain nor is held by it; and with
    an empty sender domain or no host extracted, the verdict is "Contains
    link".  So sender [a@x.com] with body [click http://evil.com] gets the
    external-link verdict. *)
Theorem external_link_rule :
  (forall sender reply_to subject body,
      let body_text := lower rt body in
      let sender_domain := extract_domain rt (strip rt sender) in
      let link_domains := Re.findall link_domain_pattern body_text in
      let verdict := is_email_phishing rt sender reply_to subject body in
      (forall kw, In kw SUSPICIOUS_KEYWORDS ->
                  str_in kw (lower rt subject) = false /\
                  str_in kw body_text = false) ->
      str_in (lit "http://") body_text || str_in (lit "https://") body_text
      = true ->
      (link_domains <> [] -> sender_domain <> [] ->
       (verdict = EMAIL_EXTERNAL_LINK <->
        exists ld, In ld link_domains /\
                   str_in sender_domain (lower rt ld) = false /\
                   str_in (lower rt ld) sender_domain = false)) /\
      (sender_domain = [] \/ link_domains = [] -> verdict = EMAIL_LINK)) /\
  is_email_phishing rt (lit "a@x.com") [] [] (lit "click http://evil.com")
  = EMAIL_EXTERNAL_LINK.
Proof.
  split; [|reflexivity].
  intros sender reply_to subject body body_text sender_domain link_domains
         verdict Hkw Hlink.
  assert (Hv : verdict =
               if nonempty link_domains && nonempty sender_domain then
                 if existsb (foreign_link rt sender_domain) link_domains
                 then EMAIL_EXTERNAL_LINK
                 else email_rules_after_links rt (strip rt sender)
                        (strip rt reply_to) (lower rt subject) body_text
               else EMAIL_LINK).
  { unfold verdict, is_email_phishing. fold body_text.
    rewrite find_all_false.
    - unfold contains_link. rewrite search_link_pattern, Hlink. reflexivity.
    - intros kw Hin. destruct (Hkw kw Hin) as [-> ->]. reflexivity. }
  rewrite Hv. split.
  - intros Hl Hs. rewrite (nonempty_true _ Hl), (nonempty_true _ Hs). simpl.
    destruct (existsb _ _) eqn:E.
    + split; [intros _|reflexivity].
      apply existsb_exists in E. destruct E as [ld [Hin Hf]].
      exists ld. split; [exact Hin|].
      unfold foreign_link in Hf. apply andb_true_iff in Hf.
      destruct Hf as [H1 H2].
      now rewrite negb_true_iff in H1, H2.
    + split.
      * intros H.
        destruct (email_rules_after_links_cases rt (strip rt sender)
                    (strip rt reply_to) (lower rt subject) body_text)
          as [E' | [E' | [[E' _] | E']]];
          rewrite E' in H; verdict_neq H.
      * intros [ld [Hin [H1 H2]]].
        assert (existsb (foreign_link rt sender_domain) link_domains = true)
          as E'; [|congruence].
        apply existsb_exists. exists ld. split; [exact Hin|].
        unfold foreign_link. now rewrite H1, H2.
  - intros [-> | ->]; [now rewrite andb_false_r | reflexivity].
Qed.

(** ** Both classifiers *)

(** C8. The email classifier always returns one of its enumerated verdicts,
    and so does the URL classifier whenever it returns; its only other
    outcome is the exception of [urlparse], and that outcome occurs: on the
    text [https://]], whose network location holds a closing bracket
    without the opening one, the URL classifier returns no verdict and
    leaves with [ValueError]. *)
Theorem verdicts_closed_but_url_raises :
  (forall sender reply_to subject body,
      In (is_email_phishing rt sender reply_to subject body) EMAIL_VERDICTS) /\
  (forall url,
      match is_phishing_url rt url with
      | Return v => In v URL_VERDICTS
      | Raise e => urlparse rt (strip rt url) = Raise e
      end) /\
  is_phishing_url rt (lit "https://]") = Raise invalid_ipv6.
Proof.
  split; [|split; [|reflexivity]].
  - apply is_email_phishing_verdict.
  - intros url.
    destruct (is_phishing_url rt url) as [v|e] eqn:E.
    + exact (is_phishing_url_verdict rt url v E).
    + revert E. unfold is_phishing_url.
      destruct (Re.search _ _); [discriminate|].
      destruct (negb _); [discriminate|].
      destruct (_ || _); [discriminate|].
      destruct (75 <? _); [discriminate|].
      destruct (urlparse rt _); [|now intros [= ->]].
      destruct (_ && _); discriminate.
Qed.

End Properties.

(** ** The check store *)

Lemma add_url_checks_rows (subs : list submission) (d : Db.Database) :
  exists news,
    Db.url_check (add_url_checks subs d) = Db.url_check d ++ news /\
    map url_fields news = subs.
Proof.
  revert d. induction subs as [|[[u r] now] subs IH]; intros d; simpl.
  - exists []. now rewrite app_nil_r.
  - destruct (IH (Db.add_url_check u r now d)) as [news [Hr Hm]].
    simpl in Hr. rewrite <- app_assoc in Hr.
    eexists. split; [exact Hr|]. simpl. now rewrite Hm.
Qed.

Lemma sorted_map_inv {A B : Type} (f : A -> B) (R : B -> B -> Prop)
      (l : list A) :
  StronglySorted R (map f l) -> StronglySorted (fun a b => R (f a) (f b)) l.
Proof.
  induction l as [|a l IH]; simpl; intros H; [constructor|].
  inversion H as [|? ? Hs Ha]; subst. constructor; [now apply IH|].
  rewrite Forall_map in Ha. exact Ha.
Qed.

(** C7, as the code has it.  The history query returns, for every table and
    every [n], a result (it cannot fail, whatever [n]); the result has
    [min n size] rows, ordered by timestamp descending, and the rows left
    out are not newer than the rows returned; the order among rows of one
    timestamp is not fixed.  A check stored at a clock reading later than
    every stored timestamp comes first in the next history; and after
    checks stored at increasing clock readings, all later than the stored
    timestamps, a query for no more rows than were stored returns exactly
    the last of them, newest first. *)
Theorem recent_url_checks_spec :
  (forall n d, exists res, Db.recent_url_checks n d res) /\
  (forall n d res,
      Db.recent_url_checks n d res ->
      length res = Nat.min n (length (Db.url_check d)) /\
      StronglySorted (Db.desc Db.url_timestamp) res /\
      exists others,
        Permutation (Db.url_check d) (res ++ others) /\
        forall x y, In x res -> In y others ->
                    (Db.url_timestamp y <= Db.url_timestamp x)%Z) /\
  (forall n u r now d res,
      (forall row, In row (Db.url_check d) -> (Db.url_timestamp row < now)%Z) ->
      1 <= n ->
      Db.recent_url_checks n (Db.add_url_check u r now d) res ->
      option_map url_fields (hd_error res) = Some (u, r, now)) /\
  (forall n subs d res,
      StronglySorted (fun a b : submission => (snd a < snd b)%Z) subs ->
      (forall row sub, In row (Db.url_check d) -> In sub subs ->
                       (Db.url_timestamp row < snd sub)%Z) ->
      n <= length subs ->
      Db.recent_url_checks n (add_url_checks subs d) res ->
      map url_fields res = firstn n (rev subs)).
Proof.
  split; [|split; [|split]].
  - intros n d. eexists. apply recent_sqlite_recent.
  - intros n d res H. split; [|split].
    + exact (recent_length _ _ _ _ H).
    + exact (recent_sorted _ _ _ _ H).
    + exact (recent_newest _ _ _ _ H).
  - intros n u r now d res Hnew Hn [sorted [Hord ->]].
    simpl in Hord. apply order_by_desc_newer in Hord; [|exact Hnew].
    destruct Hord as [older [-> _]].
    destruct n; [lia | reflexivity].
  - intros n subs d res Hinc Hold Hn [sorted [Hord ->]].
    destruct (add_url_checks_rows subs d) as [news [Hrows Hm]].
    rewrite Hrows in Hord. subst subs.
    apply order_by_desc_appended in Hord.
    + destruct Hord as [older [-> _]]. unfold Db.limit.
      rewrite length_map in Hn.
      rewrite firstn_app, length_rev.
      replace (n - length news) with 0 by lia.
      rewrite firstn_O, app_nil_r.
      now rewrite <- map_rev, firstn_map.
    + exact (sorted_map_inv url_fields _ news Hinc).
    + intros row x Hrow Hx.
      exact (Hold row (url_fields x) Hrow (in_map url_fields _ _ Hx)).
Qed.

(** C7, as stated, fails: two checks stored at one reading of the clock are
    returned by SQLite, as SQL allows, in the order of the table, the
    smaller id first; the history is then not ordered with ties broken by
    id descending, and the record stored last is not the first of it. *)
Lemma recent_url_checks_ties_by_table_order :
  let res := Db.recent_sqlite Db.url_timestamp 5 (Db.url_check tied_db) in
  Db.recent_url_checks 5 tied_db res /\
  map Db.url_id res = [1; 2]%Z /\
  map Db.url_timestamp res = [0; 0]%Z /\
  ~ StronglySorted newest_first_by_id res /\
  hd_error res <> last_error (Db.url_check tied_db) /\
  ~ (forall n d history, Db.recent_url_checks n d history ->
                         StronglySorted newest_first_by_id history).
Proof.
  cbv zeta.
  assert (Hties : ~ StronglySorted newest_first_by_id
                    (Db.recent_sqlite Db.url_timestamp 5
                       (Db.url_check tied_db))).
  { intros H. inversion H as [|? ? _ Hall]; subst.
    inversion Hall as [|? ? [Hlt | [_ Hlt]] _]; subst;
      vm_compute in Hlt; discriminate Hlt. }
  split; [apply recent_sqlite_recent|].
  split; [reflexivity|]. split; [reflexivity|].
  split; [exact Hties|]. split.
  - vm_compute. intros [=].
  - intros H. apply Hties. apply (H 5 tied_db). apply recent_sqlite_recent.
Qed.

(** * Instances

    Each statement above that has premises, at a concrete input on the
    ASCII runtime. *)

Lemma is_phishing_url_first_rule_wins_witness :
  rule_ip ascii_runtime (strip ascii_runtime (lit " http://user@host/ "))
  = false /\
  rule_no_https ascii_runtime
                (strip ascii_runtime (lit " http://user@host/ ")) = true /\
  rule_symbols (strip ascii_runtime (lit " http://user@host/ ")) = true /\
  is_phishing_url ascii_runtime (lit " http://user@host/ ")
  = Return URL_NO_HTTPS.
Proof.
  split; [reflexivity|]. split; [reflexivity|]. split; [reflexivity|].
  apply (proj1 (is_phishing_url_first_rule_wins ascii_runtime)
           (lit " http://user@host/ ")
           [(rule_ip ascii_runtime, URL_IP)]
           (rule_no_https ascii_runtime, URL_NO_HTTPS)
           [(rule_symbols, URL_SYMBOLS); (rule_too_long, URL_TOO_LONG);
            (rule_subdomain ascii_runtime, URL_SUBDOMAIN)]).
  - reflexivity.
  - reflexivity.
  - intros r [<- | []]. reflexivity.
Defined.

Lemma is_phishing_url_empty_witness :
  strip ascii_runtime (lit "   ") = [] /\
  is_phishing_url ascii_runtime (lit "   ") = Return URL_NO_HTTPS.
Proof.
  split; [reflexivity|].
  apply (is_phishing_url_empty ascii_runtime). reflexivity.
Defined.

Lemma extract_domain_spec_witness :
  (count (chr "@") (lit "noatsign") = 0 /\
   extract_domain ascii_runtime (lit "noatsign") = []) /\
  (count (chr "@") (lit "Example.COM") = 0 /\
   extract_domain ascii_runtime (lit "bob@work" ++ chr "@" :: lit "Example.COM")
   = lower ascii_runtime (lit "Example.COM")).
Proof.
  destruct (extract_domain_spec ascii_runtime) as [Hnone [Hlast _]].
  split; (split; [reflexivity|]).
  - apply Hnone. reflexivity.
  - apply Hlast. reflexivity.
Defined.


Lemma sensitive_verdict_only_social_security_witness :
  is_email_phishing ascii_runtime (lit "a@x.com") [] []
                    (lit "Send your Social Security number")
  = EMAIL_SENSITIVE /\
  str_in (lit "social security")
         (lower ascii_runtime (lit "Send your Social Security number")) = true.
Proof.
  split; [reflexivity|].
  apply (sensitive_verdict_only_social_security ascii_runtime
           (lit "a@x.com") [] []).
  reflexivity.
Defined.

Lemma external_link_rule_witness :
  let body_text := lower ascii_runtime (lit "click http://evil.com") in
  let sender_domain :=
    extract_domain ascii_runtime (strip ascii_runtime (lit "a@x.com")) in
  let link_domains := Re.findall link_domain_pattern body_text in
  link_domains = [lit "evil.com"] /\
  sender_domain = lit "x.com" /\
  (is_email_phishing ascii_runtime (lit "a@x.com") [] []
                     (lit "click http://evil.com") = EMAIL_EXTERNAL_LINK <->
   exists ld, In ld link_domains /\
              str_in sender_domain (lower ascii_runtime ld) = false /\
              str_in (lower ascii_runtime ld) sender_domain = false) /\
  extract_domain ascii_runtime (strip ascii_runtime (lit "nobody")) = [] /\
  is_email_phishing ascii_runtime (lit "nobody") [] []
                    (lit "click http://evil.com") = EMAIL_LINK.
Proof.
  cbv zeta. split; [reflexivity|]. split; [reflexivity|].
  assert (Hkw : forall kw, In kw SUSPICIOUS_KEYWORDS ->
                  str_in kw (lower ascii_runtime []) = false /\
                  str_in kw (lower ascii_runtime (lit "click http://evil.com"))
                  = false).
  { intros kw Hin. unfold SUSPICIOUS_KEYWORDS in Hin. simpl in Hin.
    repeat (destruct Hin as [<- | Hin]; [split; reflexivity|]).
    destruct Hin. }
  split; [|split; [reflexivity|]].
  - destruct (proj1 (external_link_rule ascii_runtime)
                (lit "a@x.com") [] [] (lit "click http://evil.com")
                Hkw eq_refl) as [Hmismatch _].
    apply Hmismatch; vm_compute; discriminate.
  - destruct (proj1 (external_link_rule ascii_runtime)
                (lit "nobody") [] [] (lit "click http://evil.com")
                Hkw eq_refl) as [_ Hlink].
    apply Hlink. left. reflexivity.
Defined.

Lemma recent_url_checks_spec_witness :
  let d := add_url_checks ten_checks Db.empty in
  let res := Db.recent_sqlite Db.url_timestamp 5 (Db.url_check d) in
  let d1 := Db.add_url_check (lit "http://x.example") URL_NO_HTTPS 11%Z d in
  let res1 := Db.recent_sqlite Db.url_timestamp 5 (Db.url_check d1) in
  Db.recent_url_checks 5 d res /\
  map url_fields res = firstn 5 (rev ten_checks) /\
  map Db.url_id res = [10; 9; 8; 7; 6]%Z /\
  Db.recent_url_checks 5 d1 res1 /\
  option_map url_fields (hd_error res1)
  = Some (lit "http://x.example", URL_NO_HTTPS, 11%Z) /\
  length res1 = Nat.min 5 (length (Db.url_check d1)).
Proof.
  cbv zeta.
  destruct recent_url_checks_spec as [_ [Hshape [Hnew Hlast]]].
  split; [apply recent_sqlite_recent|]. split; [|split; [reflexivity|]].
  - apply (Hlast 5 ten_checks Db.empty).
    + repeat constructor.
    + intros row sub [].
    + vm_compute. repeat constructor.
    + apply recent_sqlite_recent.
  - split; [apply recent_sqlite_recent|]. split.
    + apply (Hnew 5 (lit "http://x.example") URL_NO_HTTPS 11%Z
                  (add_url_checks ten_checks Db.empty)).
      * intros row Hin. vm_compute in Hin.
        repeat (destruct Hin as [<- | Hin]; [reflexivity|]). destruct Hin.
      * repeat constructor.
      * apply recent_sqlite_recent.
    + apply (Hshape 5 _ _ (recent_sqlite_recent Db.url_timestamp 5 _)).
Defined.

(** * Further properties of the program *)

(** ** Trimming *)

Lemma dropwhile_idempotent (p : char -> bool) (s : str) :
  dropwhile p (dropwhile p s) = dropwhile p s.
Proof.
  induction s as [|c s IH]; simpl; [reflexivity|].
  destruct (p c) eqn:E; [exact IH|]. simpl. now rewrite E.
Qed.

Lemma dropwhile_snoc (p : char -> bool) (s : str) (c : char) :
  p c = false -> dropwhile p (s ++ [c]) = dropwhile p s ++ [c].
Proof.
  intros Hc. induction s as [|x s IH]; simpl; [now rewrite Hc|].
  destruct (p x); [exact IH | reflexivity].
Qed.

(** Trimming the right end of a text that starts with no space leaves a text
    that starts with no space. *)
Lemma dropwhile_rstrip (p : char -> bool) (t : str) :
  dropwhile p t = t ->
  dropwhile p (rev (dropwhile p (rev t))) = rev (dropwhile p (rev t)).
Proof.
  destruct t as [|c t]; [reflexivity|]. simpl.
  destruct (p c) eqn:E.
  - intros H. exfalso.
    assert (Hlen : length (dropwhile p t) <= length t).
    { clear. induction t as [|x t IH]; simpl; [lia|].
      destruct (p x); simpl; lia. }
    rewrite H in Hlen. simpl in Hlen. lia.
  - intros _. rewrite (dropwhile_snoc p (rev t) c E).
    rewrite rev_app_distr. simpl. now rewrite E.
Qed.

Lemma strip_idempotent (rt : Runtime) (s : str) :
  strip rt (strip rt s) = strip rt s.
Proof.
  unfold strip.
  rewrite (dropwhile_rstrip (isspace rt) (dropwhile (isspace rt) s)
             (dropwhile_idempotent _ _)).
  now rewrite rev_involutive, dropwhile_idempotent.
Qed.

(** X1. White space around the submitted text does not change a verdict:
    the URL classifier gives the same outcome on a text and on its trimmed
    form, and the email classifier the same verdict whether or not the
    sender and the reply-to address are trimmed; so the verdict the route
    [check_url] stores is the outcome of the classifier on the raw form
    field. *)
Theorem verdicts_ignore_surrounding_space (rt : Runtime) :
  (forall url, is_phishing_url rt (strip rt url) = is_phishing_url rt url) /\
  (forall sender reply_to subject body,
      is_email_phishing rt (strip rt sender) (strip rt reply_to) subject body
      = is_email_phishing rt sender reply_to subject body) /\
  (forall form_url now d d',
      strip rt form_url <> [] ->
      check_url rt form_url now d = Return d' ->
      option_map (fun row => Return (Db.url_result row))
                 (last_error (Db.url_check d'))
      = Some (is_phishing_url rt form_url)).
Proof.
  split; [|split].
  - intros url. unfold is_phishing_url. now rewrite strip_idempotent.
  - intros sender reply_to subject body. unfold is_email_phishing.
    now rewrite !strip_idempotent.
  - intros form_url now d d' Hne. unfold check_url.
    destruct (strip rt form_url) as [|c u] eqn:Hu; [congruence|].
    assert (Hv : is_phishing_url rt form_url = is_phishing_url rt (c :: u)).
    { rewrite <- Hu. unfold is_phishing_url. now rewrite strip_idempotent. }
    rewrite Hv.
    destruct (is_phishing_url rt (c :: u)) as [v|e]; [|discriminate].
    intros [= <-]. simpl. now rewrite last_error_snoc.
Qed.

Lemma verdicts_ignore_surrounding_space_witness :
  strip ascii_runtime (lit "  http://example.com ") <> [] /\
  check_url ascii_runtime (lit "  http://example.com ") 3%Z Db.empty
  = Return (Db.add_url_check (lit "http://example.com") URL_NO_HTTPS 3%Z
              Db.empty) /\
  option_map (fun row => Return (Db.url_result row))
             (last_error
                (Db.url_check
                   (Db.add_url_check (lit "http://example.com") URL_NO_HTTPS
                      3%Z Db.empty)))
  = Some (is_phishing_url ascii_runtime (lit "  http://example.com ")).
Proof.
  split; [vm_compute; discriminate|]. split; [reflexivity|].
  apply (proj2 (proj2 (verdicts_ignore_surrounding_space ascii_runtime))
           (lit "  http://example.com ") 3%Z Db.empty).
  - vm_compute. discriminate.
  - reflexivity.
Defined.

(** ** Links *)

(** X2. [contains_link] holds of a text exactly when [http://] or
    [https://] occurs in it. *)
Theorem contains_link_iff (text : str) :
  contains_link text = true <->
  exists before after,
    text = before ++ lit "http://" ++ after \/
    text = before ++ lit "https://" ++ after.
Proof.
  unfold contains_link. rewrite search_link_pattern, orb_true_iff.
  rewrite !str_in_iff. split.
  - intros [[l [r H]] | [l [r H]]]; exists l, r; [now left | now right].
  - intros [l [r [H | H]]]; [left | right]; now exists l, r.
Qed.

Lemma contains_link_iff_witness :
  contains_link (lit "see https://x") = true.
Proof.
  apply (proj2 (contains_link_iff (lit "see https://x"))).
  exists (lit "see "), (lit "x"). right. reflexivity.
Defined.

(** ** What a URL verdict tells *)

Ltac url_rule_trace rt url :=
  unfold is_phishing_url;
  destruct (Re.search (ip_pattern rt) (strip rt url)) eqn:Hip;
  [|destruct (negb (startswith (lower rt (strip rt url)) (lit "https://")))
      eqn:Hhttps;
    [|destruct (str_in (lit "@") (strip rt url) ||
                str_in (lit "//") (slice_from 8 (strip rt url))) eqn:Hsym;
      [|destruct (75 <? length (strip rt url)) eqn:Hlen;
        [|destruct (urlparse rt (strip rt url)) as [parsed|e] eqn:Hparse;
          [destruct ((3 <=? count (chr ".")
                             match hostname rt parsed with
                             | Some h => h
                             | None => []
                             end) &&
                     existsb
                       (fun keyword =>
                          str_in keyword
                                 match hostname rt parsed with
                                 | Some h => h
                                 | None => []
                                 end)
                       [lit "login"; lit "secure"; lit "account"]) eqn:Hsub|]]]]].

(** X3. A text judged legitimate passed every rule: once trimmed it holds
    no dotted quad, starts with [https://] whatever the case of the
    letters, holds no [@] and no [//] after its eighth character, has at
    most 75 characters, is parsed by [urlparse] without an exception, and
    its host name does not have both three dots and one of [login],
    [secure], [account]. *)
Theorem legitimate_url_passed_every_rule (rt : Runtime) (url : str) :
  is_phishing_url rt url = Return URL_LEGITIMATE ->
  let u := strip rt url in
  Re.search (ip_pattern rt) u = false /\
  startswith (lower rt u) (lit "https://") = true /\
  str_in (lit "@") u = false /\
  str_in (lit "//") (slice_from 8 u) = false /\
  length u <= 75 /\
  exists parsed,
    urlparse rt u = Return parsed /\
    forall h, hostname rt parsed = Some h ->
              3 <= count (chr ".") h ->
              forall keyword,
                In keyword [lit "login"; lit "secure"; lit "account"] ->
                str_in keyword h = false.
Proof.
  cbv zeta. url_rule_trace rt url; intros H;
    try (injection H as H; verdict_neq H); try discriminate H.
  apply negb_false_iff in Hhttps. apply orb_false_iff in Hsym.
  destruct Hsym as [Hat Hslash]. apply Nat.ltb_ge in Hlen.
  repeat split; try assumption.
  exists parsed. split; [reflexivity|].
  intros h Hh Hdots keyword Hin. rewrite Hh in Hsub.
  apply Nat.leb_le in Hdots. rewrite Hdots in Hsub. simpl in Hsub.
  destruct (str_in keyword h) eqn:E; [|reflexivity].
  assert (existsb (fun keyword => str_in keyword h)
                  [lit "login"; lit "secure"; lit "account"] = true)
    as Hex by (apply existsb_exists; now exists keyword).
  simpl in Hex. congruence.
Qed.

Lemma legitimate_url_passed_every_rule_witness :
  is_phishing_url ascii_runtime (lit "https://Example.com/login")
  = Return URL_LEGITIMATE /\
  str_in (lit "@") (strip ascii_runtime (lit "https://Example.com/login"))
  = false.
Proof.
  split; [reflexivity|].
  apply (legitimate_url_passed_every_rule ascii_runtime
           (lit "https://Example.com/login")).
  reflexivity.
Defined.

(** X4. The reason a phishing verdict gives is the rule that fired on the
    trimmed text: "Contains IP address" only with a dotted quad found,
    "No HTTPS" only without the prefix [https://], "Suspicious symbols"
    only with an [@] or a [//] after the eighth character, "URL too long"
    only above 75 characters, "Suspicious subdomain pattern" only for a host
    name with three dots or more that holds [login], [secure] or
    [account]. *)
Theorem phishing_url_reason_holds (rt : Runtime) (url v : str) :
  is_phishing_url rt url = Return v ->
  let u := strip rt url in
  (v = URL_IP -> Re.search (ip_pattern rt) u = true) /\
  (v = URL_NO_HTTPS -> startswith (lower rt u) (lit "https://") = false) /\
  (v = URL_SYMBOLS ->
   str_in (lit "@") u = true \/ str_in (lit "//") (slice_from 8 u) = true) /\
  (v = URL_TOO_LONG -> 75 < length u) /\
  (v = URL_SUBDOMAIN ->
   exists parsed h keyword,
     urlparse rt u = Return parsed /\ hostname rt parsed = Some h /\
     3 <= count (chr ".") h /\
     In keyword [lit "login"; lit "secure"; lit "account"] /\
     str_in keyword h = true).
Proof.
  cbv zeta. url_rule_trace rt url; intros H; try discriminate H;
    injection H as <-;
    (split; [|split; [|split; [|split]]]); intros Hv;
    try (verdict_neq Hv).
  - reflexivity.
  - now apply negb_true_iff in Hhttps.
  - now apply orb_true_iff in Hsym.
  - now apply Nat.ltb_lt in Hlen.
  - apply andb_true_iff in Hsub. destruct Hsub as [Hdots Hkw].
    destruct (hostname rt parsed) as [h|] eqn:Hh; [|discriminate Hdots].
    apply existsb_exists in Hkw. destruct Hkw as [keyword [Hin Hk]].
    exists parsed, h, keyword. repeat split; try assumption.
    now apply Nat.leb_le.
Qed.

Lemma phishing_url_reason_holds_witness :
  is_phishing_url ascii_runtime (lit "https://a.secure.b.c.example/")
  = Return URL_SUBDOMAIN /\
  exists parsed h keyword,
    urlparse ascii_runtime
             (strip ascii_runtime (lit "https://a.secure.b.c.example/"))
    = Return parsed /\
    hostname ascii_runtime parsed = Some h /\
    3 <= count (chr ".") h /\
    In keyword [lit "login"; lit "secure"; lit "account"] /\
    str_in keyword h = true.
Proof.
  split; [reflexivity|].
  apply (phishing_url_reason_holds ascii_runtime
           (lit "https://a.secure.b.c.example/") URL_SUBDOMAIN);
    reflexivity.
Defined.

(** ** What an email verdict tells *)

Lemma EMAIL_KEYWORD_injective (kw kw' : str) :
  EMAIL_KEYWORD kw = EMAIL_KEYWORD kw' -> kw = kw'.
Proof.
  unfold EMAIL_KEYWORD. intros H.
  apply app_inv_head in H. apply app_inv_head in H.
  now apply app_inv_tail in H.
Qed.

Lemma str_ne_true (a b : str) : str_ne a b = true -> a <> b.
Proof.
  unfold str_ne. destruct (list_eq_dec N.eq_dec a b); [discriminate | auto].
Qed.

Lemma str_ne_false (a b : str) : str_ne a b = false -> a = b.
Proof.
  unfold str_ne. destruct (list_eq_dec N.eq_dec a b); [auto | discriminate].
Qed.

Lemma nonempty_iff {A : Type} (l : list A) : nonempty l = true <-> l <> [].
Proof. destruct l; simpl; split; congruence. Qed.

Lemma nonempty_false {A : Type} (l : list A) : nonempty l = false -> l = [].
Proof. destruct l; simpl; congruence. Qed.

Lemma email_rules_after_links_inv (rt : Runtime) (s r subj body_text : str) :
  let v := email_rules_after_links rt s r subj body_text in
  let sd := extract_domain rt s in
  let rd := extract_domain rt r in
  (v = EMAIL_REPLY_TO -> r <> [] /\ sd <> [] /\ rd <> [] /\ sd <> rd) /\
  (v = EMAIL_URGENCY ->
   3 <= count (chr "!") body_text \/ 2 <= count (chr "!") subj) /\
  (v = EMAIL_LEGITIMATE ->
   (r <> [] -> sd = [] \/ rd = [] \/ sd = rd) /\
   count (chr "!") body_text < 3 /\ count (chr "!") subj < 2 /\
   forall word, In word SENSITIVE_PHRASES -> str_in word body_text = false).
Proof.
  cbv zeta. unfold email_rules_after_links.
  destruct (nonempty r &&
            (nonempty (extract_domain rt s) && nonempty (extract_domain rt r) &&
             str_ne (extract_domain rt s) (extract_domain rt r))) eqn:Hr.
  { split; [|split]; intros H; try (verdict_neq H).
    apply andb_true_iff in Hr. destruct Hr as [Hr Hd].
    apply andb_true_iff in Hd. destruct Hd as [Hd Hne].
    apply andb_true_iff in Hd. destruct Hd as [Hsd Hrd].
    apply nonempty_iff in Hr. apply nonempty_iff in Hsd.
    apply nonempty_iff in Hrd.
    repeat split; try assumption. now apply str_ne_true. }
  destruct ((3 <=? count (chr "!") body_text) || (2 <=? count (chr "!") subj))
    eqn:Hu.
  { split; [|split]; intros H; try (verdict_neq H).
    apply orb_true_iff in Hu. destruct Hu as [Hu | Hu];
      apply Nat.leb_le in Hu; [now left | now right]. }
  destruct (existsb (fun word => str_in word body_text) SENSITIVE_PHRASES)
    eqn:Hs.
  { split; [|split]; intros H; verdict_neq H. }
  split; [|split]; intros H; try (verdict_neq H).
  apply orb_false_iff in Hu. destruct Hu as [Hb Hj].
  apply Nat.leb_gt in Hb, Hj.
  repeat split; try assumption.
  - intros Hne. apply nonempty_iff in Hne. rewrite Hne in Hr. simpl in Hr.
    destruct (extract_domain rt s) as [|c sd] eqn:Esd; [now left|].
    destruct (extract_domain rt r) as [|c' rd] eqn:Erd; [right; now left|].
    simpl in Hr. right. right. now apply str_ne_false.
  - intros word Hin.
    destruct (str_in word body_text) eqn:E; [|reflexivity].
    assert (existsb (fun word => str_in word body_text) SENSITIVE_PHRASES
            = true) as Hex by (apply existsb_exists; now exists word).
    congruence.
Qed.

Ltac email_rule_trace rt sender subject body :=
  unfold is_email_phishing;
  destruct (List.find (fun kw => str_in kw (lower rt subject) ||
                                 str_in kw (lower rt body))
                      SUSPICIOUS_KEYWORDS) as [kw0|] eqn:Hfind;
  [|destruct (contains_link (lower rt body)) eqn:Hlink;
    [destruct (nonempty (Re.findall link_domain_pattern (lower rt body)) &&
               nonempty (extract_domain rt (strip rt sender))) eqn:Hdom;
     [destruct (existsb (foreign_link rt
                           (extract_domain rt (strip rt sender)))
                        (Re.findall link_domain_pattern (lower rt body)))
        eqn:Hforeign|]|]].

(** X5. An email judged legitimate passed every rule: no keyword of the list
    occurs in its lowercased subject or body; if the body holds a link,
    the sender has a domain, a host was extracted, and every host holds the
    sender domain or is held by it; a reply-to address, once trimmed, has
    the domain of the sender unless one of the two domains is empty; the
    body has fewer than three exclamation marks and the subject fewer than
    two; and none of the phrases of rule 5 occurs in the body. *)
Theorem legitimate_email_passed_every_rule
        (rt : Runtime) (sender reply_to subject body : str) :
  is_email_phishing rt sender reply_to subject body = EMAIL_LEGITIMATE ->
  let subj := lower rt subject in
  let body_text := lower rt body in
  let sd := extract_domain rt (strip rt sender) in
  let rd := extract_domain rt (strip rt reply_to) in
  (forall kw, In kw SUSPICIOUS_KEYWORDS ->
              str_in kw subj = false /\ str_in kw body_text = false) /\
  (contains_link body_text = true ->
   sd <> [] /\ Re.findall link_domain_pattern body_text <> [] /\
   forall ld, In ld (Re.findall link_domain_pattern body_text) ->
              str_in sd (lower rt ld) = true \/
              str_in (lower rt ld) sd = true) /\
  (strip rt reply_to <> [] -> sd = [] \/ rd = [] \/ sd = rd) /\
  count (chr "!") body_text < 3 /\ count (chr "!") subj < 2 /\
  forall word, In word SENSITIVE_PHRASES -> str_in word body_text = false.
Proof.
  cbv zeta. email_rule_trace rt sender subject body; intros H;
    try (verdict_neq H);
    destruct (email_rules_after_links_inv rt (strip rt sender)
                (strip rt reply_to) (lower rt subject) (lower rt body))
      as [_ [_ Hleg]];
    destruct (Hleg H) as [Hr [Hb [Hs Hw]]];
    (split; [intros kw Hin;
             exact (keyword_absent _ _ kw Hfind Hin)|]);
    (split; [|repeat split; assumption]).
  - intros _. apply andb_true_iff in Hdom. destruct Hdom as [Hl Hsd].
    apply nonempty_iff in Hl. apply nonempty_iff in Hsd.
    repeat split; try assumption.
    intros ld Hin.
    assert (foreign_link rt (extract_domain rt (strip rt sender)) ld = false)
      as Hf.
    { destruct (foreign_link rt _ ld) eqn:E; [|reflexivity].
      assert (existsb (foreign_link rt (extract_domain rt (strip rt sender)))
                      (Re.findall link_domain_pattern (lower rt body)) = true)
        as Hex by (apply existsb_exists; now exists ld).
      congruence. }
    unfold foreign_link in Hf. apply andb_false_iff in Hf.
    destruct Hf as [Hf | Hf]; apply negb_false_iff in Hf; [now left | now right].
  - discriminate.
Qed.

Lemma legitimate_email_passed_every_rule_witness :
  is_email_phishing ascii_runtime (lit "ann@shop.example") []
                    (lit "Your order") (lit "See http://www.shop.example/o")
  = EMAIL_LEGITIMATE /\
  count (chr "!")
        (lower ascii_runtime (lit "See http://www.shop.example/o")) < 3.
Proof.
  split; [reflexivity|].
  apply (legitimate_email_passed_every_rule ascii_runtime
           (lit "ann@shop.example") [] (lit "Your order")
           (lit "See http://www.shop.example/o")).
  reflexivity.
Defined.

(** A keyword verdict names the first keyword of the list that occurs. *)
Lemma keyword_verdict_inv (rt : Runtime) (sender reply_to subject body kw : str) :
  is_email_phishing rt sender reply_to subject body = EMAIL_KEYWORD kw ->
  exists before after,
    SUSPICIOUS_KEYWORDS = before ++ kw :: after /\
    str_in kw (lower rt subject) || str_in kw (lower rt body) = true /\
    forall k, In k before ->
              str_in k (lower rt subject) || str_in k (lower rt body) = false.
Proof.
  pose proof (email_rules_after_links_cases rt (strip rt sender)
                (strip rt reply_to) (lower rt subject) (lower rt body))
    as Hcases.
  email_rule_trace rt sender subject body; intros Hv;
    try (verdict_neq Hv);
    try (destruct Hcases as [E | [E | [[E _] | E]]];
         rewrite E in Hv; verdict_neq Hv).
  apply EMAIL_KEYWORD_injective in Hv. subst kw0.
  destruct (find_some_first _ _ _ Hfind) as [before [after [Hl [Hk Hb]]]].
  now exists before, after.
Qed.

(** X6. The reason a phishing verdict gives is the rule that fired: a
    keyword verdict names a keyword of the list that occurs in the
    lowercased subject or body, and no keyword occurs there that stands
    before it in the list; the two link verdicts are given only for a body
    that holds a link, the external one only with a host that neither holds
    the sender domain nor is held by it, the plain one only without a host
    or without a sender domain; the reply-to verdict only for two domains
    that are not empty and differ; the urgency verdict only with three
    exclamation marks in the body or two in the subject. *)
Theorem phishing_email_reason_holds
        (rt : Runtime) (sender reply_to subject body : str) :
  let v := is_email_phishing rt sender reply_to subject body in
  let subj := lower rt subject in
  let body_text := lower rt body in
  let sd := extract_domain rt (strip rt sender) in
  let rd := extract_domain rt (strip rt reply_to) in
  let link_domains := Re.findall link_domain_pattern body_text in
  (forall kw, v = EMAIL_KEYWORD kw ->
     exists before after,
       SUSPICIOUS_KEYWORDS = before ++ kw :: after /\
       str_in kw subj || str_in kw body_text = true /\
       forall k, In k before -> str_in k subj || str_in k body_text = false) /\
  (v = EMAIL_EXTERNAL_LINK ->
     contains_link body_text = true /\
     exists ld, In ld link_domains /\
                str_in sd (lower rt ld) = false /\
                str_in (lower rt ld) sd = false) /\
  (v = EMAIL_LINK ->
     contains_link body_text = true /\ (link_domains = [] \/ sd = [])) /\
  (v = EMAIL_REPLY_TO ->
     strip rt reply_to <> [] /\ sd <> [] /\ rd <> [] /\ sd <> rd) /\
  (v = EMAIL_URGENCY ->
     3 <= count (chr "!") body_text \/ 2 <= count (chr "!") subj).
Proof.
  cbv zeta.
  pose proof (email_rules_after_links_inv rt (strip rt sender)
                (strip rt reply_to) (lower rt subject) (lower rt body))
    as [Hreply [Hurgent _]].
  pose proof (email_rules_after_links_cases rt (strip rt sender)
                (strip rt reply_to) (lower rt subject) (lower rt body))
    as Hcases.
  email_rule_trace rt sender subject body;
    (split; [intros kw Hv|
             split; [intros Hv|split; [intros Hv|split; [intros Hv|intros Hv]]]]);
    try (verdict_neq Hv);
    try (destruct Hcases as [E | [E | [[E _] | E]]];
         rewrite E in Hv; verdict_neq Hv);
    try (now apply Hreply); try (now apply Hurgent).
  - apply EMAIL_KEYWORD_injective in Hv. subst kw0.
    destruct (find_some_first _ _ _ Hfind) as [before [after [Hl [Hk Hb]]]].
    now exists before, after.
  - split; [reflexivity|].
    apply existsb_exists in Hforeign. destruct Hforeign as [ld [Hin Hf]].
    exists ld. split; [exact Hin|].
    unfold foreign_link in Hf. apply andb_true_iff in Hf.
    destruct Hf as [H1 H2]. now rewrite negb_true_iff in H1, H2.
  - split; [reflexivity|].
    apply andb_false_iff in Hdom.
    destruct Hdom as [H1 | H1]; apply nonempty_false in H1; [now left | now right].
Qed.

Lemma phishing_email_reason_holds_witness :
  is_email_phishing ascii_runtime (lit "ann@shop.example")
                    (lit " ann@mail.example ") (lit "Hello") (lit "Hi")
  = EMAIL_REPLY_TO /\
  extract_domain ascii_runtime (strip ascii_runtime (lit "ann@shop.example")) <>
  extract_domain ascii_runtime (strip ascii_runtime (lit " ann@mail.example ")).
Proof.
  split; [reflexivity|].
  apply (phishing_email_reason_holds ascii_runtime (lit "ann@shop.example")
           (lit " ann@mail.example ") (lit "Hello") (lit "Hi")).
  reflexivity.
Defined.

(** X7. No verdict names the keyword [verify your]: a text in which it
    occurs holds [verify], which stands before it in the list. *)
Theorem verify_your_never_reported
        (rt : Runtime) (sender reply_to subject body : str) :
  is_email_phishing rt sender reply_to subject body
  <> EMAIL_KEYWORD (lit "verify your").
Proof.
  intros H.
  destruct (keyword_verdict_inv rt sender reply_to subject body _ H)
    as [before [after [Hl [Hk Hb]]]].
  unfold SUSPICIOUS_KEYWORDS in Hl. simpl in Hl.
  destruct before as [|b1 before]; [vm_compute in Hl; discriminate Hl|].
  destruct before as [|b2 before]; [vm_compute in Hl; discriminate Hl|].
  injection Hl as _ Hverify _. subst b2.
  specialize (Hb (lit "verify") (or_intror (or_introl eq_refl))).
  apply orb_false_iff in Hb. destruct Hb as [Hs Hbody].
  rewrite (str_in_absent (lit "verify") (lit "verify your") _ eq_refl Hs) in Hk.
  rewrite (str_in_absent (lit "verify") (lit "verify your") _ eq_refl Hbody)
    in Hk.
  discriminate Hk.
Qed.

(** ** When the URL classifier raises *)

Lemma Forall_dropwhile (P : char -> Prop) (p : char -> bool) (s : str) :
  Forall P s -> Forall P (dropwhile p s).
Proof.
  induction 1 as [|c s Hc Hs IH]; simpl; [constructor|].
  destruct (p c); [exact IH | now constructor].
Qed.

Lemma Forall_filter (P : char -> Prop) (p : char -> bool) (s : str) :
  Forall P s -> Forall P (filter p s).
Proof.
  induction 1 as [|c s Hc Hs IH]; simpl; [constructor|].
  destruct (p c); [now constructor | exact IH].
Qed.

Lemma Forall_skipn (P : char -> Prop) (n : nat) (s : str) :
  Forall P s -> Forall P (skipn n s).
Proof.
  intros H. rewrite <- (firstn_skipn n s) in H.
  now apply Forall_app in H.
Qed.

Lemma Forall_until_delim (P : char -> Prop) (s : str) :
  Forall P s -> Forall P (fst (Urllib.until_delim s)).
Proof.
  induction 1 as [|c s Hc Hs IH]; simpl; [constructor|].
  destruct (_ || _); [constructor|].
  destruct (Urllib.until_delim s) as [a b]. simpl in *. now constructor.
Qed.

Lemma plain_has_no (c : char) (s : str) :
  (c = chr "[" \/ c = chr "]") -> Forall plain_char s ->
  Urllib.has c s = false.
Proof.
  intros Hc. induction 1 as [|x s [_ [Ho Hcl]] Hs IH]; simpl; [reflexivity|].
  rewrite IH, orb_false_r. apply N.eqb_neq.
  destruct Hc as [-> | ->]; congruence.
Qed.

Lemma plain_isascii (s : str) : Forall plain_char s -> forallb isascii s = true.
Proof.
  intros H. apply forallb_forall. rewrite Forall_forall in H.
  intros c Hc. now apply H.
Qed.

Lemma urlparse_returns_on_plain (rt : Runtime) (u : str) :
  Forall plain_char u -> exists parsed, urlparse rt u = Return parsed.
Proof.
  intros H. unfold urlparse.
  set (u1 := filter (fun c => negb (Urllib.unsafe_url_byte c))
                    (dropwhile Urllib.c0_control_or_space u)).
  assert (H1 : Forall plain_char u1)
    by (apply Forall_filter, Forall_dropwhile, H).
  destruct (match Urllib.find (chr ":") u1, u1 with
            | Some (S i), c0 :: _ =>
                if isascii c0 && Urllib.isalpha_ascii c0 &&
                   forallb Urllib.scheme_char (firstn (S i) u1)
                then (lower rt (firstn (S i) u1), skipn (S (S i)) u1)
                else ([], u1)
            | _, _ => ([], u1)
            end) as [scheme u2] eqn:E.
  assert (H2 : Forall plain_char u2).
  { destruct (Urllib.find (chr ":") u1) as [[|i]|]; try (now injection E as _ <-).
    destruct u1 as [|c0 t]; [now injection E as _ <-|].
    destruct (isascii c0 && Urllib.isalpha_ascii c0 &&
              forallb Urllib.scheme_char (firstn (S i) (c0 :: t)));
      injection E as _ <-;
      [exact (Forall_skipn plain_char (S (S i)) (c0 :: t) H1) | exact H1]. }
  destruct (startswith u2 (lit "//")); [|eexists; reflexivity].
  unfold Urllib.splitnetloc.
  pose proof (Forall_until_delim plain_char (skipn 2 u2)
                (Forall_skipn plain_char 2 u2 H2)) as H3.
  destruct (Urllib.until_delim (skipn 2 u2)) as [netloc rest].
  simpl in H3.
  rewrite (plain_has_no (chr "[") netloc (or_introl eq_refl) H3).
  rewrite (plain_has_no (chr "]") netloc (or_intror eq_refl) H3).
  rewrite (plain_isascii netloc H3). simpl.
  eexists; reflexivity.
Qed.

(** X8. The URL classifier raises only on a text that, once trimmed, holds
    a square bracket or a character outside ASCII: on every other text it
    returns one of its six verdicts. *)
Theorem is_phishing_url_returns_on_plain_text (rt : Runtime) (url : str) :
  (forall c, In c (strip rt url) ->
             isascii c = true /\ c <> chr "[" /\ c <> chr "]") ->
  exists v, is_phishing_url rt url = Return v /\ In v URL_VERDICTS.
Proof.
  intros H.
  assert (Hplain : Forall plain_char (strip rt url))
    by (apply Forall_forall; exact H).
  destruct (urlparse_returns_on_plain rt _ Hplain) as [parsed Hp].
  destruct (is_phishing_url rt url) as [v|e] eqn:E.
  - exists v. split; [reflexivity|]. exact (is_phishing_url_verdict rt url v E).
  - exfalso. revert E. unfold is_phishing_url. rewrite Hp.
    destruct (Re.search _ _); [discriminate|].
    destruct (negb _); [discriminate|].
    destruct (_ || _); [discriminate|].
    destruct (75 <? _); [discriminate|].
    destruct (_ && _); discriminate.
Qed.

Lemma is_phishing_url_returns_on_plain_text_witness :
  exists v, is_phishing_url ascii_runtime (lit " https://x.example/a?b ")
            = Return v /\ In v URL_VERDICTS.
Proof.
  apply (is_phishing_url_returns_on_plain_text ascii_runtime
           (lit " https://x.example/a?b ")).
  intros c Hin. vm_compute in Hin.
  repeat (destruct Hin as [<- | Hin];
          [split; [reflexivity | split; discriminate]|]).
  destruct Hin.
Defined.

(** ** Invariants of the stored checks *)








(** X10. A stored verdict is the verdict of the classifier on the stored
    input: every row of the URL table holds a trimmed text that is not
    empty and the verdict [is_phishing_url] returns on it, one of the six;
    every row of the email table holds a trimmed sender that is not empty,
    the other fields trimmed, and the verdict of [is_email_phishing] on its
    four stored fields. *)
Theorem stored_verdicts_are_classifier_verdicts (rt : Runtime)
        (d : Db.Database) :
  reachable rt d ->
  (forall row, In row (Db.url_check d) ->
               Db.url row <> [] /\
               strip rt (Db.url row) = Db.url row /\
               is_phishing_url rt (Db.url row) = Return (Db.url_result row) /\
               In (Db.url_result row) URL_VERDICTS) /\
  (forall row, In row (Db.email_check d) ->
               Db.sender row <> [] /\
               (strip rt (Db.sender row) = Db.sender row /\
                strip rt (Db.reply_to row) = Db.reply_to row /\
                strip rt (Db.subject row) = Db.subject row /\
                strip rt (Db.body row) = Db.body row) /\
               Db.email_result row
               = is_email_phishing rt (Db.sender row) (Db.reply_to row)
                                   (Db.subject row) (Db.body row) /\
               In (Db.email_result row) EMAIL_VERDICTS).
Proof.
  induction 1 as [|d d' form_url now _ [IHu IHe] Hstep
                  |d d' fs fr fj fb now _ [IHu IHe] Hstep].
  - split; intros row [].
  - unfold check_url in Hstep.
    destruct (strip rt form_url) as [|c u] eqn:Hu;
      [injection Hstep as <-; now split|].
    destruct (is_phishing_url rt (c :: u)) as [v|e] eqn:Hv; [|discriminate].
    injection Hstep as <-. simpl. split; [|exact IHe].
    intros row Hin. apply in_app_or in Hin.
    destruct Hin as [Hin | [<- | []]]; [now apply IHu|]. simpl.
    split; [discriminate|].
    split; [rewrite <- Hu; apply strip_idempotent|].
    split; [exact Hv|].
    exact (is_phishing_url_verdict rt _ _ Hv).
  - unfold check_email in Hstep.
    destruct (strip rt fs) as [|c u] eqn:Hu;
      [injection Hstep as <-; now split|].
    injection Hstep as <-. simpl. split; [exact IHu|].
    intros row Hin. apply in_app_or in Hin.
    destruct Hin as [Hin | [<- | []]]; [now apply IHe|]. simpl.
    split; [discriminate|].
    split; [rewrite <- Hu; now rewrite !strip_idempotent|].
    split; [reflexivity|].
    apply is_email_phishing_verdict.
Qed.

Lemma stored_verdicts_are_classifier_verdicts_witness :
  is_phishing_url ascii_runtime (lit "http://a.example") = Return URL_NO_HTTPS.
Proof.
  assert (Hr : reachable ascii_runtime
                 (Db.add_url_check (lit "http://a.example") URL_NO_HTTPS 5%Z
                    Db.empty)).
  { apply (reach_check_url ascii_runtime Db.empty _
             (lit " http://a.example") 5%Z); [apply reach_empty|reflexivity]. }
  apply (proj1 (stored_verdicts_are_classifier_verdicts ascii_runtime _ Hr)
           {| Db.url_id := 1%Z; Db.url := lit "http://a.example";
              Db.url_result := URL_NO_HTTPS; Db.url_timestamp := 5%Z |}).
  left. reflexivity.
Defined.

Lemma sorted_snoc {A : Type} (R : A -> A -> Prop) (l : list A) (a : A) :
  StronglySorted R l -> Forall (fun x => R x a) l ->
  StronglySorted R (l ++ [a]).
Proof.
  induction 1 as [|x l Hs IH Hx]; simpl; intros Ha.
  - repeat constructor.
  - inversion Ha as [|? ? Hxa Hla]; subst.
    constructor; [now apply IH|].
    apply Forall_app. split; [exact Hx | now constructor].
Qed.

Lemma timestamps_ordered_later (t now : Db.datetime) (ts : list Db.datetime) :
  (t <= now)%Z -> timestamps_ordered t ts -> timestamps_ordered now ts.
Proof.
  intros Hle [Hs Hb]. split; [exact Hs|].
  eapply Forall_impl; [|exact Hb]. intros x Hx. simpl in Hx. lia.
Qed.

Lemma timestamps_ordered_snoc (t now : Db.datetime) (ts : list Db.datetime) :
  (t <= now)%Z -> timestamps_ordered t ts ->
  timestamps_ordered now (ts ++ [now]).
Proof.
  intros Hle [Hs Hb].
  assert (Hb' : Forall (fun x => (x <= now)%Z) ts).
  { eapply Forall_impl; [|exact Hb]. intros x Hx. simpl in Hx. lia. }
  split.
  - now apply sorted_snoc.
  - apply Forall_app. split; [exact Hb'|]. constructor; [lia | constructor].
Qed.

(** X11. As long as the clock does not go back, the timestamps of a table do
    not decrease along its rows: a route run at a clock reading [now] that
    is not earlier than the stored timestamps leaves both tables with
    timestamps in order and none later than [now]. *)
Theorem routes_keep_timestamps_ordered (rt : Runtime) :
  (forall form_url t now d d',
      (t <= now)%Z ->
      timestamps_ordered t (map Db.url_timestamp (Db.url_check d)) ->
      timestamps_ordered t (map Db.email_timestamp (Db.email_check d)) ->
      check_url rt form_url now d = Return d' ->
      timestamps_ordered now (map Db.url_timestamp (Db.url_check d')) /\
      timestamps_ordered now (map Db.email_timestamp (Db.email_check d'))) /\
  (forall fs fr fj fb t now d d',
      (t <= now)%Z ->
      timestamps_ordered t (map Db.url_timestamp (Db.url_check d)) ->
      timestamps_ordered t (map Db.email_timestamp (Db.email_check d)) ->
      check_email rt fs fr fj fb now d = Return d' ->
      timestamps_ordered now (map Db.url_timestamp (Db.url_check d')) /\
      timestamps_ordered now (map Db.email_timestamp (Db.email_check d'))).
Proof.
  split.
  - intros form_url t now d d' Hle Hu He. unfold check_url.
    destruct (strip rt form_url).
    + intros [= <-]. split; now apply (timestamps_ordered_later t).
    + destruct (is_phishing_url rt _); [|discriminate].
      intros [= <-]. simpl. rewrite map_app. simpl. split.
      * now apply (timestamps_ordered_snoc t).
      * now apply (timestamps_ordered_later t).
  - intros fs fr fj fb t now d d' Hle Hu He. unfold check_email.
    destruct (strip rt fs).
    + intros [= <-]. split; now apply (timestamps_ordered_later t).
    + intros [= <-]. simpl. rewrite map_app. simpl. split.
      * now apply (timestamps_ordered_later t).
      * now apply (timestamps_ordered_snoc t).
Qed.

Lemma routes_keep_timestamps_ordered_witness :
  timestamps_ordered 7%Z
    (map Db.url_timestamp
         (Db.url_check
            (Db.add_url_check (lit "http://a.example") URL_NO_HTTPS 7%Z
               tied_db))).
Proof.
  apply (proj1 (routes_keep_timestamps_ordered ascii_runtime)
           (lit "http://a.example") 0%Z 7%Z tied_db).
  - lia.
  - split; repeat constructor; discriminate.
  - split; constructor.
  - reflexivity.
Defined.

(** X12. When the timestamps of the URL table strictly increase along its
    rows, the history query has one result only, the one SQLite returns: the
    last [n] rows stored, the last one first. *)
Theorem history_of_increasing_timestamps (n : nat) (d : Db.Database) :
  StronglySorted Z.lt (map Db.url_timestamp (Db.url_check d)) ->
  (forall res, Db.recent_url_checks n d res ->
               res = firstn n (rev (Db.url_check d))) /\
  Db.recent_sqlite Db.url_timestamp n (Db.url_check d)
  = firstn n (rev (Db.url_check d)).
Proof.
  intros Hinc.
  assert (Hall : forall res, Db.recent_url_checks n d res ->
                             res = firstn n (rev (Db.url_check d))).
  { intros res [sorted [Hord ->]].
    destruct (order_by_desc_appended Db.url_timestamp [] (Db.url_check d)
                sorted) as [older [-> [Hp _]]].
    - exact (sorted_map_inv Db.url_timestamp Z.lt _ Hinc).
    - intros r x [].
    - exact Hord.
    - apply Permutation_nil in Hp. subst older. now rewrite app_nil_r. }
  split; [exact Hall|].
  apply Hall. apply recent_sqlite_recent.
Qed.

Lemma history_of_increasing_timestamps_witness :
  map Db.url_id
      (Db.recent_sqlite Db.url_timestamp 5
         (Db.url_check (add_url_checks ten_checks Db.empty)))
  = [10; 9; 8; 7; 6]%Z /\
  Db.recent_sqlite Db.url_timestamp 5
    (Db.url_check (add_url_checks ten_checks Db.empty))
  = firstn 5 (rev (Db.url_check (add_url_checks ten_checks Db.empty))).
Proof.
  split; [reflexivity|].
  apply (history_of_increasing_timestamps 5
           (add_url_checks ten_checks Db.empty)).
  vm_compute. repeat constructor.
Defined.

(** ** The matcher and the language of a pattern *)

Lemma exec_rep {A : Type} (lo hi : nat) (r : Re.regex) (s : str)
      (cap : option str) (k : str -> option str -> option A) :
  Re.exec (Re.Rep lo hi r) s cap k = rep_loop (Re.exec r) k lo hi s cap.
Proof. reflexivity. Qed.

Lemma exec_plus {A : Type} (r : Re.regex) (s : str) (cap : option str)
      (k : str -> option str -> option A) :
  Re.exec (Re.Plus r) s cap k = plus_loop (Re.exec r) k (S (length s)) s cap.
Proof. reflexivity. Qed.

Lemma is_some_or {A : Type} (o b : option A) :
  is_some match o with Some x => Some x | None => b end
  = is_some o || is_some b.
Proof. now destruct o. Qed.

Lemma blind_of_iff {A : Type} (f : str -> option str -> option A)
      (P : str -> Prop) :
  (forall s cap, is_some (f s cap) = true <-> P s) -> cap_blind f.
Proof.
  intros H s c1 c2. apply Bool.eq_iff_eq_true. now rewrite !H.
Qed.

Section MatcherFacts.
Context {A : Type}.

Local Abbreviation decides r :=
  (forall k : str -> option str -> option A,
      cap_blind k ->
      forall s cap,
        is_some (Re.exec r s cap k) = true <-> accepts k (lang r) s).

Lemma rep_loop_accepts (r : Re.regex) (k : str -> option str -> option A) :
  decides r -> cap_blind k ->
  forall hi lo, lo <= hi ->
  forall s cap,
    is_some (rep_loop (Re.exec r) k lo hi s cap) = true <->
    accepts k (fun m => exists n, lo <= n <= hi /\ power (lang r) n m) s.
Proof.
  intros IHr Hk. induction hi as [|hi IHhi]; intros lo Hle s cap.
  - simpl. split.
    + intros H. exists [], s. split; [reflexivity|]. split.
      * exists 0. split; [lia | reflexivity].
      * now rewrite (Hk s None cap).
    + intros [m [s' [-> [[n [Hn Hp]] H]]]].
      assert (n = 0) by lia. subst n. simpl in Hp. subst m. simpl.
      now rewrite (Hk s' cap None).
  - cbn [rep_loop]. rewrite is_some_or, orb_true_iff.
    assert (Hkr : cap_blind (fun s' cap' =>
                               rep_loop (Re.exec r) k (pred lo) hi s' cap')).
    { eapply blind_of_iff. intros s0 cap0. apply IHhi. lia. }
    rewrite (IHr _ Hkr). split.
    + intros [[m1 [s1 [-> [L1 H]]]] | H].
      * apply IHhi in H; [|lia].
        destruct H as [m [s' [-> [[n [Hn Hp]] H]]]].
        exists (m1 ++ m), s'. split; [now rewrite app_assoc|]. split; [|exact H].
        exists (S n). split; [lia|]. now exists m1, m.
      * destruct (Nat.eqb lo 0) eqn:E; [|discriminate H].
        apply Nat.eqb_eq in E. exists [], s. split; [reflexivity|]. split.
        -- exists 0. split; [lia | reflexivity].
        -- now rewrite (Hk s None cap).
    + intros [m [s' [-> [[n [Hn Hp]] H]]]]. destruct n as [|n].
      * simpl in Hp. subst m. right.
        replace (Nat.eqb lo 0) with true by (symmetry; apply Nat.eqb_eq; lia).
        simpl. now rewrite (Hk s' cap None).
      * destruct Hp as [a [b [-> [La Hp]]]]. left.
        exists a, (b ++ s'). split; [now rewrite app_assoc|].
        split; [exact La|]. apply IHhi; [lia|].
        exists b, s'. split; [reflexivity|]. split; [|exact H].
        exists n. split; [lia | exact Hp].
Qed.

Lemma plus_loop_blind (r : Re.regex) (k : str -> option str -> option A) :
  decides r -> cap_blind k ->
  forall fuel, cap_blind (plus_loop (Re.exec r) k fuel).
Proof.
  intros IHr Hk. induction fuel as [|fuel IH]; intros s c1 c2; [reflexivity|].
  cbn [plus_loop]. apply Bool.eq_iff_eq_true.
  assert (Hk' : cap_blind (fun s' cap' =>
                             match plus_loop (Re.exec r) k fuel s' cap' with
                             | Some x => Some x
                             | None => k s' cap'
                             end)).
  { intros s' d1 d2. now rewrite !is_some_or, (IH s' d1 d2), (Hk s' d1 d2). }
  now rewrite !(IHr _ Hk').
Qed.

Lemma plus_loop_accepts (r : Re.regex) (k : str -> option str -> option A) :
  decides r -> (forall m, lang r m -> m <> []) -> cap_blind k ->
  forall fuel s cap,
    length s < fuel ->
    (is_some (plus_loop (Re.exec r) k fuel s cap) = true <->
     accepts k (fun m => exists n, power (lang r) (S n) m) s).
Proof.
  intros IHr Hne Hk.
  induction fuel as [|fuel IH]; intros s cap Hlen; [lia|].
  cbn [plus_loop].
  assert (Hk' : cap_blind (fun s' cap' =>
                             match plus_loop (Re.exec r) k fuel s' cap' with
                             | Some x => Some x
                             | None => k s' cap'
                             end)).
  { intros s' d1 d2.
    now rewrite !is_some_or, (plus_loop_blind r k IHr Hk fuel s' d1 d2),
      (Hk s' d1 d2). }
  rewrite (IHr _ Hk'). split.
  - intros [m1 [s1 [-> [L1 H]]]].
    rewrite is_some_or, orb_true_iff in H. destruct H as [H | H].
    + assert (Hlen1 : length s1 < fuel).
      { pose proof (Hne m1 L1) as Hm. rewrite length_app in Hlen.
        destruct m1; [congruence | simpl in Hlen; lia]. }
      apply (IH s1 None Hlen1) in H.
      destruct H as [m [s' [-> [[n Hp] H]]]].
      exists (m1 ++ m), s'. split; [now rewrite app_assoc|]. split; [|exact H].
      exists (S n). now exists m1, m.
    + exists m1, s1. split; [reflexivity|]. split; [|exact H].
      exists 0, m1, []. split; [now rewrite app_nil_r|]. now split.
  - intros [m [s' [-> [[n [a [b [-> [La Hp]]]]] H]]]].
    exists a, (b ++ s'). split; [now rewrite app_assoc|]. split; [exact La|].
    rewrite is_some_or, orb_true_iff. destruct n as [|n].
    + simpl in Hp. subst b. right. exact H.
    + left. apply IH.
      * pose proof (Hne a La) as Ha. rewrite !length_app in Hlen.
        rewrite length_app. destruct a; [congruence | simpl in Hlen; lia].
      * exists b, s'. split; [reflexivity|]. split; [|exact H].
        now exists n.
Qed.

(** The matcher succeeds on a text exactly when a match of the pattern at
    the head of the text leaves a rest on which the continuation
    succeeds. *)
Lemma exec_accepts (r : Re.regex) : well_formed r -> decides r.
Proof.
  induction r as [|c|p|r1 IH1 r2 IH2|r IH|lo hi r IH|r IH|r IH];
    intros Hwf k Hk s cap.
  - simpl. split.
    + intros H. exists [], s. repeat split. now rewrite (Hk s None cap).
    + intros [m [s' [-> [-> H]]]]. simpl. now rewrite (Hk s' cap None).
  - simpl. destruct s as [|x s].
    + split; [discriminate|]. intros [m [s' [E [-> _]]]]. discriminate E.
    + destruct (x =? c)%N eqn:E.
      * apply N.eqb_eq in E. subst x. split.
        -- intros H. exists [c], s. repeat split. now rewrite (Hk s None cap).
        -- intros [m [s' [E' [-> H]]]]. injection E' as ->.
           now rewrite (Hk s' cap None).
      * split; [discriminate|]. intros [m [s' [E' [-> _]]]].
        injection E' as -> _. now rewrite N.eqb_refl in E.
  - simpl. destruct s as [|x s].
    + split; [discriminate|].
      intros [m [s' [E [[y [-> _]] _]]]]. discriminate E.
    + destruct (p x) eqn:E.
      * split.
        -- intros H. exists [x], s. split; [reflexivity|]. split.
           ++ now exists x.
           ++ now rewrite (Hk s None cap).
        -- intros [m [s' [E' [[y [-> _]] H]]]]. injection E' as _ ->.
           now rewrite (Hk s' cap None).
      * split; [discriminate|]. intros [m [s' [E' [[y [-> Hy]] _]]]].
        injection E' as -> _. congruence.
  - destruct Hwf as [H1 H2]. cbn [Re.exec].
    assert (Hk2 : cap_blind (fun s' cap' => Re.exec r2 s' cap' k)).
    { eapply blind_of_iff. intros s0 cap0. now apply IH2. }
    rewrite (IH1 H1 _ Hk2). split.
    + intros [m1 [s1 [-> [L1 H]]]]. apply (IH2 H2 k Hk) in H.
      destruct H as [m2 [s2 [-> [L2 H]]]].
      exists (m1 ++ m2), s2. split; [now rewrite app_assoc|]. split; [|exact H].
      now exists m1, m2.
    + intros [m [s' [-> [[a [b [-> [La Lb]]]] H]]]].
      exists a, (b ++ s'). split; [now rewrite app_assoc|]. split; [exact La|].
      apply (IH2 H2 k Hk). now exists b, s'.
  - cbn [Re.exec well_formed] in *.
    rewrite is_some_or, orb_true_iff, (IH Hwf k Hk). split.
    + intros [[m [s' [-> [L H]]]] | H].
      * exists m, s'. split; [reflexivity|]. split; [now right | exact H].
      * exists [], s. split; [reflexivity|]. split; [now left|].
        now rewrite (Hk s None cap).
    + intros [m [s' [-> [[-> | L] H]]]].
      * right. simpl. now rewrite (Hk s' cap None).
      * left. now exists m, s'.
  - destruct Hwf as [Hle Hwf]. rewrite exec_rep.
    exact (rep_loop_accepts r k (IH Hwf) Hk hi lo Hle s cap).
  - destruct Hwf as [Hwf Hne]. rewrite exec_plus.
    apply (plus_loop_accepts r k (IH Hwf) Hne Hk). lia.
  - cbn [Re.exec well_formed] in *.
    assert (Hk' : cap_blind
                    (fun (s' : str) (_ : option str) =>
                       k s' (Some (firstn (length s - length s') s)))).
    { intros s' d1 d2. reflexivity. }
    rewrite (IH Hwf _ Hk'). split.
    + intros [m [s' [-> [L H]]]]. exists m, s'. repeat split; [exact L|].
      now rewrite (Hk s' None (Some (firstn (length (m ++ s') - length s')
                                            (m ++ s')))).
    + intros [m [s' [-> [L H]]]]. exists m, s'. repeat split; [exact L|].
      now rewrite (Hk s' (Some (firstn (length (m ++ s') - length s')
                                       (m ++ s'))) None).
Qed.

End MatcherFacts.

(** [re.search] finds a pattern exactly in the texts that hold a match. *)
Lemma search_iff (r : Re.regex) (s : str) :
  well_formed r ->
  (Re.search r s = true <->
   exists pre m post, s = pre ++ m ++ post /\ lang r m).
Proof.
  intros Hwf.
  assert (Hhere : forall t,
             is_some (Re.match_here r t) = true <->
             exists m t', t = m ++ t' /\ lang r m).
  { intros t. unfold Re.match_here.
    rewrite (exec_accepts r Hwf (fun s' cap => Some (s', cap))
               (fun _ _ _ => eq_refl) t None).
    split.
    - intros [m [t' [-> [L _]]]]. now exists m, t'.
    - intros [m [t' [-> L]]]. exists m, t'. now repeat split. }
  induction s as [|c s IH].
  - change (Re.search r []) with
      (match Re.match_here r [] with Some _ => true | None => false end).
    replace (match Re.match_here r [] with Some _ => true | None => false end)
      with (is_some (Re.match_here r [])) by reflexivity.
    rewrite Hhere. split.
    + intros [m [t' [E L]]]. now exists [], m, t'.
    + intros [pre [m [post [E L]]]].
      destruct pre; [|discriminate E]. now exists m, post.
  - rewrite search_cons, orb_true_iff, Hhere, IH. split.
    + intros [[m [t' [E L]]] | [pre [m [post [-> L]]]]].
      * now exists [], m, t'.
      * now exists (c :: pre), m, post.
    + intros [[|x pre] [m [post [E L]]]].
      * left. now exists m, post.
      * right. injection E as _ ->. now exists pre, m, post.
Qed.

Lemma power_class (p : char -> bool) (n : nat) (g : str) :
  power (lang (Re.Class p)) n g <-> length g = n /\ forallb p g = true.
Proof.
  revert g. induction n as [|n IH]; intros g; simpl.
  - split.
    + intros ->. now split.
    + intros [H _]. now destruct g.
  - split.
    + intros [a [b [-> [[x [-> Hx]] Hb]]]]. apply IH in Hb.
      destruct Hb as [<- Hb]. simpl. now rewrite Hx, Hb.
    + intros [Hl Hg]. destruct g as [|x g]; [discriminate Hl|].
      simpl in Hg. apply andb_true_iff in Hg. destruct Hg as [Hx Hg].
      exists [x], g. split; [reflexivity|]. split; [now exists x|].
      apply IH. split; [now injection Hl | exact Hg].
Qed.

Lemma digits_lang (rt : Runtime) (g : str) :
  lang (Re.Rep 1 3 (Re.Class (isdecimal rt))) g <-> digit_group rt g.
Proof.
  unfold digit_group. cbn [lang]. split.
  - intros [n [Hn Hp]]. apply power_class in Hp. destruct Hp as [<- Hp].
    now split.
  - intros [Hl Hg]. exists (length g). split; [exact Hl|].
    apply power_class. now split.
Qed.

Lemma ip_pattern_well_formed (rt : Runtime) : well_formed (ip_pattern rt).
Proof. simpl. repeat split; lia. Qed.

(** The texts of the pattern of the IP rule: four groups of one to three
    digits with a dot between them. *)
Lemma ip_pattern_lang (rt : Runtime) (m : str) :
  lang (ip_pattern rt) m <->
  exists g1 g2 g3 g4,
    m = g1 ++ chr "." :: g2 ++ chr "." :: g3 ++ chr "." :: g4 /\
    digit_group rt g1 /\ digit_group rt g2 /\ digit_group rt g3 /\
    digit_group rt g4.
Proof.
  unfold ip_pattern. cbn [lang]. split.
  - intros [a [b [-> [[n [Hn Hp]] Hb]]]].
    assert (n = 3) by lia. subst n. cbn [power] in Hp.
    destruct Hp as [x1 [y1 [-> [[g1 [d1 [-> [H1 ->]]]] Hp]]]].
    destruct Hp as [x2 [y2 [-> [[g2 [d2 [-> [H2 ->]]]] Hp]]]].
    destruct Hp as [x3 [y3 [-> [[g3 [d3 [-> [H3 ->]]]] ->]]]].
    exists g1, g2, g3, b.
    split; [repeat (rewrite <- app_assoc; simpl); now rewrite ?app_nil_r|].
    split; [exact (proj1 (digits_lang rt g1) H1)|].
    split; [exact (proj1 (digits_lang rt g2) H2)|].
    split; [exact (proj1 (digits_lang rt g3) H3)|].
    exact (proj1 (digits_lang rt b) Hb).
  - intros [g1 [g2 [g3 [g4 [-> [H1 [H2 [H3 H4]]]]]]]].
    apply digits_lang in H1, H2, H3, H4.
    exists ((g1 ++ [chr "."]) ++ (g2 ++ [chr "."]) ++ (g3 ++ [chr "."]) ++ []),
           g4.
    split; [repeat (rewrite <- app_assoc; simpl); reflexivity|].
    split; [|exact H4].
    exists 3. split; [lia|]. cbn [power].
    exists (g1 ++ [chr "."]), ((g2 ++ [chr "."]) ++ (g3 ++ [chr "."]) ++ []).
    split; [reflexivity|]. split.
    { exists g1, [chr "."]. split; [reflexivity|]. now split. }
    exists (g2 ++ [chr "."]), ((g3 ++ [chr "."]) ++ []).
    split; [reflexivity|]. split.
    { exists g2, [chr "."]. split; [reflexivity|]. now split. }
    exists (g3 ++ [chr "."]), [].
    split; [reflexivity|]. split; [|reflexivity].
    exists g3, [chr "."]. split; [reflexivity|]. now split.
Qed.

(** X13. The verdict "Contains IP address" is given exactly for the texts
    that, once trimmed, hold somewhere four groups of one to three digits
    with a dot between one group and the next. *)
Theorem ip_verdict_iff_dotted_quad (rt : Runtime) (url : str) :
  is_phishing_url rt url = Return URL_IP <->
  exists pre g1 g2 g3 g4 post,
    strip rt url
    = pre ++ (g1 ++ chr "." :: g2 ++ chr "." :: g3 ++ chr "." :: g4) ++ post /\
    digit_group rt g1 /\ digit_group rt g2 /\ digit_group rt g3 /\
    digit_group rt g4.
Proof.
  assert (Hsearch :
            Re.search (ip_pattern rt) (strip rt url) = true <->
            exists pre g1 g2 g3 g4 post,
              strip rt url
              = pre ++ (g1 ++ chr "." :: g2 ++ chr "." :: g3 ++ chr "." :: g4)
                    ++ post /\
              digit_group rt g1 /\ digit_group rt g2 /\ digit_group rt g3 /\
              digit_group rt g4).
  { rewrite (search_iff (ip_pattern rt) (strip rt url)
               (ip_pattern_well_formed rt)). split.
    - intros [pre [m [post [E L]]]]. apply ip_pattern_lang in L.
      destruct L as [g1 [g2 [g3 [g4 [-> H]]]]].
      now exists pre, g1, g2, g3, g4, post.
    - intros [pre [g1 [g2 [g3 [g4 [post [E H]]]]]]].
      exists pre, (g1 ++ chr "." :: g2 ++ chr "." :: g3 ++ chr "." :: g4), post.
      split; [exact E|]. apply ip_pattern_lang. now exists g1, g2, g3, g4. }
  rewrite <- Hsearch. clear Hsearch. split.
  - url_rule_trace rt url; intros H; try discriminate H;
      try reflexivity; injection H as H; verdict_neq H.
  - intros H. unfold is_phishing_url. now rewrite H.
Qed.

Lemma ip_verdict_iff_dotted_quad_witness :
  is_phishing_url ascii_runtime (lit "https://host/192.168.0.1x")
  = Return URL_IP.
Proof.
  apply (proj2 (ip_verdict_iff_dotted_quad ascii_runtime
                  (lit "https://host/192.168.0.1x"))).
  exists (lit "https://host/"), (lit "192"), (lit "168"), (lit "0"),
         (lit "1"), (lit "x").
  split; [reflexivity|].
  repeat split; simpl; lia.
Defined.

(** ** The hosts of the links *)

(** [https?://] in front of any continuation: the longer prefix is tried
    first, the shorter one when the continuation fails after the longer. *)
Lemma exec_link_pattern {A : Type} (K : str -> option str -> option A)
      (s : str) (cap : option str) :
  Re.exec link_pattern s cap K
  = match (if startswith s (lit "https://") then K (skipn 8 s) cap else None)
    with
    | Some x => Some x
    | None => if startswith s (lit "http://") then K (skipn 7 s) cap else None
    end.
Proof.
  unfold link_pattern. simpl.
  repeat literal_step.
Qed.

Lemma takewhile_dropwhile (p : char -> bool) (s : str) :
  takewhile p s ++ dropwhile p s = s.
Proof.
  induction s as [|c s IH]; simpl; [reflexivity|].
  destruct (p c); simpl; [now rewrite IH | reflexivity].
Qed.

Lemma takewhile_all (p : char -> bool) (s : str) :
  forallb p (takewhile p s) = true.
Proof.
  induction s as [|c s IH]; simpl; [reflexivity|].
  destruct (p c) eqn:E; simpl; [now rewrite E | reflexivity].
Qed.

Lemma dropwhile_head (p : char -> bool) (s : str) :
  match dropwhile p s with [] => True | c :: _ => p c = false end.
Proof.
  induction s as [|c s IH]; simpl; [exact I|].
  destruct (p c) eqn:E; [exact IH | exact E].
Qed.

Lemma firstn_takewhile (p : char -> bool) (s : str) :
  firstn (length s - length (dropwhile p s)) s = takewhile p s.
Proof.
  rewrite <- (takewhile_dropwhile p s) at 1 3.
  rewrite length_app.
  replace (length (takewhile p s) + length (dropwhile p s)
           - length (dropwhile p s)) with (length (takewhile p s) + 0) by lia.
  now rewrite firstn_app_2, firstn_O, app_nil_r.
Qed.

(** [(p+)] in front of a continuation that cannot fail: the longest run. *)
Lemma plus_loop_class {A : Type} (p : char -> bool)
      (k : str -> option str -> option A) :
  (forall s c, is_some (k s c) = true) ->
  forall fuel s cap,
    length s < fuel ->
    plus_loop (Re.exec (Re.Class p)) k fuel s cap
    = match s with
      | [] => None
      | c :: t => if p c then k (dropwhile p t) cap else None
      end.
Proof.
  intros Hk. induction fuel as [|fuel IH]; intros s cap Hlen; [lia|].
  cbn [plus_loop Re.exec]. destruct s as [|c t]; [reflexivity|].
  destruct (p c); [|reflexivity].
  simpl in Hlen. rewrite IH by lia.
  destruct t as [|c' t']; [reflexivity|]. simpl.
  destruct (p c'); [|reflexivity].
  pose proof (Hk (dropwhile p t') cap) as H.
  now destruct (k (dropwhile p t') cap).
Qed.

Lemma exec_host_group (s : str) (cap : option str) :
  Re.exec (Re.Group (Re.Plus (Re.Class domain_char))) s cap
          (fun s' cap' => Some (s', cap'))
  = host_here s.
Proof.
  change (Re.exec (Re.Group (Re.Plus (Re.Class domain_char))) s cap
                  (fun s' cap' => Some (s', cap')))
    with (Re.exec (Re.Plus (Re.Class domain_char)) s cap
                  (fun (s' : str) (_ : option str) =>
                     Some (s', Some (firstn (length s - length s') s)))).
  rewrite exec_plus.
  rewrite plus_loop_class; [|reflexivity|lia].
  unfold host_here. destruct s as [|c t]; [reflexivity|].
  destruct (domain_char c); [|reflexivity].
  f_equal. f_equal. f_equal.
  assert (Hle : length (dropwhile domain_char t) <= length t).
  { rewrite <- (takewhile_dropwhile domain_char t) at 2.
    rewrite length_app. lia. }
  change (length (c :: t)) with (S (length t)).
  rewrite Nat.sub_succ_l by exact Hle.
  cbn [firstn]. now rewrite firstn_takewhile.
Qed.

Lemma exec_cat {A : Type} (r1 r2 : Re.regex) (s : str) (cap : option str)
      (k : str -> option str -> option A) :
  Re.exec (Re.Cat r1 r2) s cap k
  = Re.exec r1 s cap (fun s' cap' => Re.exec r2 s' cap' k).
Proof. reflexivity. Qed.

(** The pattern of [findall] at the head of a text. *)
Lemma match_here_link_domain (s : str) :
  Re.match_here link_domain_pattern s
  = match (if startswith s (lit "https://") then host_here (skipn 8 s)
           else None) with
    | Some x => Some x
    | None => if startswith s (lit "http://") then host_here (skipn 7 s)
              else None
    end.
Proof.
  unfold Re.match_here, link_domain_pattern. rewrite exec_cat.
  rewrite (exec_link_pattern
             (fun s' cap' =>
                Re.exec (Re.Group (Re.Plus (Re.Class domain_char))) s' cap'
                        (fun s'' cap'' => Some (s'', cap''))) s None).
  now rewrite !exec_host_group.
Qed.

Lemma host_here_some (s s' : str) (cap : option str) :
  host_here s = Some (s', cap) ->
  exists g, cap = Some g /\ g <> [] /\ forallb domain_char g = true /\
            s = g ++ s' /\
            match s' with [] => True | c :: _ => domain_char c = false end.
Proof.
  unfold host_here. destruct s as [|c t]; [discriminate|].
  destruct (domain_char c) eqn:E; [|discriminate].
  intros [= <- <-]. exists (c :: takewhile domain_char t).
  split; [reflexivity|]. split; [discriminate|]. split.
  - simpl. now rewrite E, takewhile_all.
  - split; [simpl; now rewrite takewhile_dropwhile | apply dropwhile_head].
Qed.

Lemma startswith_skipn (s p : str) :
  startswith s p = true -> s = p ++ skipn (length p) s.
Proof.
  intros H. apply startswith_iff in H. destruct H as [r ->].
  rewrite skipn_app, skipn_all, Nat.sub_diag. reflexivity.
Qed.

Lemma match_here_link_domain_some (s s' : str) (cap : option str) :
  Re.match_here link_domain_pattern s = Some (s', cap) ->
  exists scheme g,
    (scheme = lit "http://" \/ scheme = lit "https://") /\
    cap = Some g /\ g <> [] /\ forallb domain_char g = true /\
    s = scheme ++ g ++ s' /\
    match s' with [] => True | c :: _ => domain_char c = false end.
Proof.
  rewrite match_here_link_domain.
  destruct (startswith s (lit "https://")) eqn:E1.
  - destruct (host_here (skipn 8 s)) as [[t c]|] eqn:E2.
    + intros [= <- <-]. apply host_here_some in E2.
      destruct E2 as [g [-> [Hg [Hall [Hs Hhead]]]]].
      exists (lit "https://"), g. split; [now right|].
      repeat split; try assumption.
      rewrite <- Hs. exact (startswith_skipn s (lit "https://") E1).
    + destruct (startswith s (lit "http://")) eqn:E3; [|discriminate].
      intros H. apply host_here_some in H.
      destruct H as [g [-> [Hg [Hall [Hs Hhead]]]]].
      exists (lit "http://"), g. split; [now left|].
      repeat split; try assumption.
      rewrite <- Hs. exact (startswith_skipn s (lit "http://") E3).
  - destruct (startswith s (lit "http://")) eqn:E3; [|discriminate].
    intros H. apply host_here_some in H.
    destruct H as [g [-> [Hg [Hall [Hs Hhead]]]]].
    exists (lit "http://"), g. split; [now left|].
    repeat split; try assumption.
    rewrite <- Hs. exact (startswith_skipn s (lit "http://") E3).
Qed.

Lemma host_of_link_later (pre text g : str) :
  host_of_link text g -> host_of_link (pre ++ text) g.
Proof.
  intros [Hg [Hall [before [scheme [after [Hs [-> Hhead]]]]]]].
  split; [exact Hg|]. split; [exact Hall|].
  exists (pre ++ before), scheme, after.
  split; [exact Hs|]. split; [now rewrite app_assoc | exact Hhead].
Qed.

Lemma findall_from_hosts (fuel : nat) (s g : str) :
  In g (Re.findall_from fuel link_domain_pattern s) -> host_of_link s g.
Proof.
  revert s. induction fuel as [|fuel IH]; intros s; [intros []|].
  cbn [Re.findall_from].
  assert (Hnext : In g match s with
                       | [] => []
                       | _ :: t => Re.findall_from fuel link_domain_pattern t
                       end -> host_of_link s g).
  { destruct s as [|c t]; [intros []|]. intros H.
    exact (host_of_link_later [c] t g (IH t H)). }
  destruct (Re.match_here link_domain_pattern s) as [[s' cap]|] eqn:E;
    [|exact Hnext].
  apply match_here_link_domain_some in E.
  destruct E as [scheme [g0 [Hs [-> [Hg [Hall [E Hhead]]]]]]].
  intros [<- | H].
  - split; [exact Hg|]. split; [exact Hall|].
    now exists [], scheme, s'.
  - destruct (length s' <? length s); [|now apply Hnext].
    rewrite E, app_assoc. apply host_of_link_later. now apply IH.
Qed.

(** X14. Every host that [findall] extracts from a text is a host of a link
    of the text: a run of letters, digits, dots and hyphens that is not
    empty, stands right after an occurrence of [http://] or [https://], and
    is followed by no such character. *)
Theorem extracted_hosts_are_hosts_of_links (text g : str) :
  In g (Re.findall link_domain_pattern text) ->
  g <> [] /\ forallb domain_char g = true /\
  exists before scheme after,
    (scheme = lit "http://" \/ scheme = lit "https://") /\
    text = before ++ scheme ++ g ++ after /\
    match after with [] => True | c :: _ => domain_char c = false end.
Proof.
  intros H. exact (findall_from_hosts (S (length text)) text g H).
Qed.

Lemma extracted_hosts_are_hosts_of_links_witness :
  In (lit "www.x.com")
     (Re.findall link_domain_pattern (lit "see https://www.x.com/a")) /\
  forallb domain_char (lit "www.x.com") = true.
Proof.
  split; [left; reflexivity|].
  apply (extracted_hosts_are_hosts_of_links (lit "see https://www.x.com/a")
           (lit "www.x.com")).
  left. reflexivity.
Defined.

Lemma match_here_link_domain_at (scheme after : str) (c : char) :
  scheme = lit "http://" \/ scheme = lit "https://" ->
  domain_char c = true ->
  Re.match_here link_domain_pattern (scheme ++ c :: after) <> None.
Proof.
  intros Hs Hc. rewrite match_here_link_domain.
  destruct Hs as [-> | ->].
  - replace (startswith (lit "http://" ++ c :: after) (lit "https://"))
      with false by reflexivity.
    replace (startswith (lit "http://" ++ c :: after) (lit "http://"))
      with true by reflexivity.
    change (skipn 7 (lit "http://" ++ c :: after)) with (c :: after).
    unfold host_here. now rewrite Hc.
  - replace (startswith (lit "https://" ++ c :: after) (lit "https://"))
      with true by reflexivity.
    change (skipn 8 (lit "https://" ++ c :: after)) with (c :: after).
    unfold host_here. now rewrite Hc.
Qed.

Lemma findall_from_finds (before scheme after : str) (c : char) :
  scheme = lit "http://" \/ scheme = lit "https://" ->
  domain_char c = true ->
  forall fuel,
    length (before ++ scheme ++ c :: after) < fuel ->
    Re.findall_from fuel link_domain_pattern (before ++ scheme ++ c :: after)
    <> [].
Proof.
  intros Hs Hc. induction before as [|x before IH]; intros fuel Hlen;
    (destruct fuel as [|fuel]; [lia|]); cbn [Re.findall_from].
  - pose proof (match_here_link_domain_at scheme after c Hs Hc) as H.
    simpl app.
    destruct (Re.match_here link_domain_pattern (scheme ++ c :: after))
      as [[s' cap]|]; [discriminate | congruence].
  - destruct (Re.match_here link_domain_pattern
                            ((x :: before) ++ scheme ++ c :: after))
      as [[s' cap]|]; [discriminate|].
    simpl app. apply IH. simpl in Hlen. lia.
Qed.

(** X15. [findall] extracts a host from a text exactly when, somewhere in
    the text, [http://] or [https://] is followed by a letter, a digit, a
    dot or a hyphen; a body whose links are all followed by something else
    has links and no link domain. *)
Theorem some_host_extracted_iff (text : str) :
  Re.findall link_domain_pattern text <> [] <->
  exists before scheme c after,
    (scheme = lit "http://" \/ scheme = lit "https://") /\
    text = before ++ scheme ++ c :: after /\
    domain_char c = true.
Proof.
  split.
  - destruct (Re.findall link_domain_pattern text) as [|g l] eqn:E;
      [congruence|]. intros _.
    assert (Hin : In g (Re.findall link_domain_pattern text))
      by (rewrite E; now left).
    apply (findall_from_hosts (S (length text))) in Hin.
    destruct Hin as [Hg [Hall [before [scheme [after [Hs [-> _]]]]]]].
    destruct g as [|c g]; [congruence|].
    simpl in Hall. apply andb_true_iff in Hall.
    exists before, scheme, c, (g ++ after). now repeat split.
  - intros [before [scheme [c [after [Hs [-> Hc]]]]]].
    unfold Re.findall. apply findall_from_finds; [exact Hs | exact Hc | lia].
Qed.

Lemma some_host_extracted_iff_witness :
  Re.findall link_domain_pattern (lit "go to http://-x now") <> [] /\
  Re.findall link_domain_pattern (lit "go to http:// now") = [].
Proof.
  split; [|reflexivity].
  apply (proj2 (some_host_extracted_iff (lit "go to http://-x now"))).
  exists (lit "go to "), (lit "http://"), (chr "-"), (lit "x now").
  split; [now left|]. split; reflexivity.
Defined.

(** ** Domains of ASCII addresses *)

Lemma lower_ascii (rt : Runtime) (s : str) :
  forallb isascii s = true -> lower rt s = map ascii_lower s.
Proof. intros H. unfold lower. now rewrite H. Qed.

Lemma ascii_lower_at (c : char) :
  (ascii_lower c =? chr "@")%N = (c =? chr "@")%N.
Proof.
  unfold ascii_lower.
  destruct ((65 <=? c)%N && (c <=? 90)%N) eqn:E; [|reflexivity].
  apply andb_true_iff in E. destruct E as [E1 E2].
  apply N.leb_le in E1, E2.
  change (chr "@") with 64%N.
  destruct (N.eqb_spec (c + 32) 64), (N.eqb_spec c 64); try reflexivity; lia.
Qed.

Lemma ascii_lower_isascii (c : char) :
  isascii c = true -> isascii (ascii_lower c) = true.
Proof.
  unfold isascii, ascii_lower. intros H. apply N.ltb_lt in H.
  destruct ((65 <=? c)%N && (c <=? 90)%N) eqn:E; apply N.ltb_lt; [|exact H].
  apply andb_true_iff in E. destruct E as [_ E2]. apply N.leb_le in E2. lia.
Qed.

Lemma ascii_lower_idempotent (c : char) :
  ascii_lower (ascii_lower c) = ascii_lower c.
Proof.
  unfold ascii_lower.
  destruct ((65 <=? c)%N && (c <=? 90)%N) eqn:E; [|now rewrite E].
  apply andb_true_iff in E. destruct E as [E1 E2].
  apply N.leb_le in E1, E2.
  replace ((65 <=? c + 32)%N && (c + 32 <=? 90)%N) with false; [reflexivity|].
  symmetry. apply andb_false_iff. right. apply N.leb_gt. lia.
Qed.

Lemma count_at_lower (s : str) :
  count (chr "@") (map ascii_lower s) = count (chr "@") s.
Proof.
  induction s as [|c s IH]; [reflexivity|].
  cbn [map count]. now rewrite ascii_lower_at, IH.
Qed.

Lemma split_at_lower (s : str) :
  split (chr "@") (map ascii_lower s)
  = map (map ascii_lower) (split (chr "@") s).
Proof.
  induction s as [|c s IH]; [reflexivity|].
  cbn [map split]. rewrite ascii_lower_at, IH.
  destruct (c =? chr "@")%N; [reflexivity|].
  now destruct (split (chr "@") s).
Qed.

Lemma split_parts_no_sep (sep : char) (s : str) :
  Forall (fun part => count sep part = 0) (split sep s).
Proof.
  induction s as [|c s IH]; simpl; [repeat constructor|].
  destruct (c =? sep)%N eqn:E; [now constructor|].
  destruct (split sep s) as [|h t]; [repeat constructor; simpl; now rewrite E|].
  inversion IH as [|? ? Hh Ht]; subst.
  constructor; [simpl; now rewrite E | exact Ht].
Qed.

Lemma split_parts_ascii (sep : char) (s : str) :
  forallb isascii s = true ->
  Forall (fun part => forallb isascii part = true) (split sep s).
Proof.
  induction s as [|c s IH]; simpl; [repeat constructor|].
  intros H. apply andb_true_iff in H. destruct H as [Hc Hs].
  specialize (IH Hs). destruct (c =? sep)%N; [now constructor|].
  destruct (split sep s) as [|h t]; [repeat constructor; simpl; now rewrite Hc|].
  inversion IH as [|? ? Hh Ht]; subst.
  constructor; [simpl; now rewrite Hc, Hh | exact Ht].
Qed.

Lemma split_not_nil (sep : char) (s : str) : split sep s <> [].
Proof.
  destruct s as [|c s]; simpl; [discriminate|].
  destruct (c =? sep)%N; [discriminate|].
  destruct (split sep s); discriminate.
Qed.

Lemma last_part_in (parts : list str) : parts <> [] -> In (last_part parts) parts.
Proof.
  unfold last_part. induction parts as [|p parts IH]; [congruence|].
  intros _. destruct parts as [|q parts]; [now left|].
  right. apply IH. discriminate.
Qed.

Lemma last_part_map (f : str -> str) (parts : list str) :
  parts <> [] -> last_part (map f parts) = f (last_part parts).
Proof.
  unfold last_part. induction parts as [|p parts IH]; [congruence|].
  intros _. destruct parts as [|q parts]; [reflexivity|].
  change (last (f p :: map f (q :: parts)) []) with (last (map f (q :: parts)) []).
  change (last (p :: q :: parts) []) with (last (q :: parts) []).
  apply IH. discriminate.
Qed.

Lemma extract_domain_eq (rt : Runtime) (address : str) :
  extract_domain rt address
  = if 1 <? length (split (chr "@") address)
    then lower rt (last_part (split (chr "@") address))
    else [].
Proof. now destruct address. Qed.

(** X16. The domain of an ASCII address holds no [@], and does not depend on
    the case of the letters of the address: the address and its lowercased
    form have the same domain, so that the comparison of the sender and
    reply-to domains ignores case. *)
Theorem extract_domain_of_ascii_address (rt : Runtime) (address : str) :
  forallb isascii address = true ->
  count (chr "@") (extract_domain rt address) = 0 /\
  extract_domain rt (lower rt address) = extract_domain rt address.
Proof.
  intros Hascii.
  pose proof (split_parts_no_sep (chr "@") address) as Hno.
  pose proof (split_parts_ascii (chr "@") address Hascii) as Hparts.
  pose proof (last_part_in _ (split_not_nil (chr "@") address)) as Hin.
  rewrite Forall_forall in Hno, Hparts.
  specialize (Hno _ Hin). specialize (Hparts _ Hin).
  rewrite !extract_domain_eq. split.
  - destruct (1 <? length (split (chr "@") address)); [|reflexivity].
    now rewrite (lower_ascii rt _ Hparts), count_at_lower.
  - rewrite (lower_ascii rt _ Hascii), split_at_lower, length_map.
    unfold str in *.
    destruct (1 <? _); [|reflexivity].
    rewrite (last_part_map (map ascii_lower) _ (split_not_nil _ _)).
    rewrite (lower_ascii rt _ Hparts).
    assert (Hl : forallb isascii (map ascii_lower
                                      (last_part (split (chr "@") address)))
                 = true).
    { rewrite forallb_forall in *. intros x Hx. apply in_map_iff in Hx.
      destruct Hx as [y [<- Hy]]. apply ascii_lower_isascii. now apply Hparts. }
    rewrite (lower_ascii rt _ Hl), map_map.
    apply map_ext. intros x. apply ascii_lower_idempotent.
Qed.

Lemma extract_domain_of_ascii_address_witness :
  forallb isascii (lit "Bob@Mail.Example.COM") = true /\
  extract_domain ascii_runtime
                 (lower ascii_runtime (lit "Bob@Mail.Example.COM"))
  = extract_domain ascii_runtime (lit "Bob@Mail.Example.COM").
Proof.
  split; [reflexivity|].
  apply (extract_domain_of_ascii_address ascii_runtime
           (lit "Bob@Mail.Example.COM")).
  reflexivity.
Defined.

(** ** The host of an HTTPS address *)

Lemma filter_domain_chars (h : str) :
  forallb domain_char h = true ->
  filter (fun c => negb (Urllib.unsafe_url_byte c)) h = h.
Proof.
  induction h as [|c h IH]; [reflexivity|].
  cbn [forallb filter]. intros H. apply andb_true_iff in H.
  destruct H as [Hc Hh]. rewrite (IH Hh).
  replace (negb (Urllib.unsafe_url_byte c)) with true; [reflexivity|].
  symmetry. apply negb_true_iff.
  unfold Urllib.unsafe_url_byte.
  destruct (N.eqb_spec c 9) as [->|_]; [discriminate Hc|].
  destruct (N.eqb_spec c 13) as [->|_]; [discriminate Hc|].
  destruct (N.eqb_spec c 10) as [->|_]; [discriminate Hc|].
  reflexivity.
Qed.

Lemma domain_chars_count (x : char) (h : str) :
  domain_char x = false -> forallb domain_char h = true -> count x h = 0.
Proof.
  intros Hx. induction h as [|c h IH]; [reflexivity|].
  cbn [forallb count]. intros H. apply andb_true_iff in H.
  destruct H as [Hc Hh]. rewrite (IH Hh).
  destruct (N.eqb_spec c x) as [->|_]; [congruence | reflexivity].
Qed.

Lemma domain_chars_has (x : char) (h : str) :
  domain_char x = false -> forallb domain_char h = true ->
  Urllib.has x h = false.
Proof.
  intros Hx. induction h as [|c h IH]; [reflexivity|].
  unfold Urllib.has in *. cbn [forallb existsb]. intros H.
  apply andb_true_iff in H. destruct H as [Hc Hh]. rewrite (IH Hh).
  destruct (N.eqb_spec x c) as [->|_]; [congruence | reflexivity].
Qed.

Lemma domain_chars_ascii (h : str) :
  forallb domain_char h = true -> forallb isascii h = true.
Proof.
  induction h as [|c h IH]; [reflexivity|].
  cbn [forallb]. intros H. apply andb_true_iff in H.
  destruct H as [Hc Hh]. rewrite (IH Hh), andb_true_r.
  unfold isascii. apply N.ltb_lt.
  unfold domain_char, Urllib.isalpha_ascii, ascii_isdigit in Hc.
  change (chr ".") with 46%N in Hc. change (chr "-") with 45%N in Hc.
  repeat rewrite orb_true_iff in Hc. repeat rewrite andb_true_iff in Hc.
  repeat rewrite N.leb_le in Hc. repeat rewrite N.eqb_eq in Hc. lia.
Qed.

Lemma partition_absent (x : char) (s : str) :
  count x s = 0 -> Urllib.partition x s = (s, false, []).
Proof.
  induction s as [|c s IH]; [reflexivity|].
  cbn [count Urllib.partition].
  destruct (c =? x)%N; [discriminate|].
  intros H. now rewrite (IH H).
Qed.

Lemma until_delim_host (h rest : str) :
  forallb domain_char h = true ->
  match rest with
  | [] => True
  | c :: _ => c = chr "/" \/ c = chr "?" \/ c = chr "#"
  end ->
  Urllib.until_delim (h ++ rest) = (h, rest).
Proof.
  intros Hh Hrest. induction h as [|c h IH].
  - destruct rest as [|c r]; [reflexivity|].
    destruct Hrest as [-> | [-> | ->]]; reflexivity.
  - cbn [forallb] in Hh. apply andb_true_iff in Hh. destruct Hh as [Hc Hh].
    cbn [app Urllib.until_delim]. rewrite (IH Hh).
    destruct (N.eqb_spec c (chr "/")) as [->|_]; [discriminate Hc|].
    destruct (N.eqb_spec c (chr "?")) as [->|_]; [discriminate Hc|].
    destruct (N.eqb_spec c (chr "#")) as [->|_]; [discriminate Hc|].
    reflexivity.
Qed.

(** [urlparse] and [hostname] on [https://], a host, and nothing or a path,
    a query or a fragment. *)
Lemma hostname_of_https (rt : Runtime) (h rest : str) :
  h <> [] -> forallb domain_char h = true ->
  match rest with
  | [] => True
  | c :: _ => c = chr "/" \/ c = chr "?" \/ c = chr "#"
  end ->
  exists parsed,
    urlparse rt (lit "https://" ++ h ++ rest) = Return parsed /\
    hostname rt parsed = Some (map ascii_lower h).
Proof.
  intros Hne Hh Hrest.
  set (rest' := filter (fun c => negb (Urllib.unsafe_url_byte c)) rest).
  assert (Hrest' : match rest' with
                   | [] => True
                   | c :: _ => c = chr "/" \/ c = chr "?" \/ c = chr "#"
                   end).
  { unfold rest'. destruct rest as [|c r]; [exact I|].
    destruct Hrest as [-> | [-> | ->]]; cbn; tauto. }
  exists {| Urllib.scheme := lit "https"; Urllib.netloc := h;
            Urllib.rest := rest' |}.
  split.
  - unfold urlparse.
    change (dropwhile Urllib.c0_control_or_space
                      (lit "https://" ++ h ++ rest))
      with (lit "https://" ++ h ++ rest).
    rewrite !filter_app, (filter_domain_chars h Hh).
    change (filter (fun c => negb (Urllib.unsafe_url_byte c))
                   (lit "https://"))
      with (lit "https://").
    fold rest'.
    cbn -[lower Urllib.splitnetloc Urllib.has].
    unfold Urllib.splitnetloc. cbn [skipn].
    rewrite (until_delim_host h rest' Hh Hrest').
    rewrite (domain_chars_has 91%N h eq_refl Hh).
    rewrite (domain_chars_has 93%N h eq_refl Hh).
    rewrite (domain_chars_ascii h Hh). reflexivity.
  - unfold hostname, Urllib.rpartition_tail. cbn [Urllib.netloc].
    rewrite (split_without_sep (chr "@") h
               (domain_chars_count (chr "@") h eq_refl Hh)).
    cbn [last_part last].
    rewrite (partition_absent (chr "[") h
               (domain_chars_count (chr "[") h eq_refl Hh)).
    rewrite (partition_absent (chr ":") h
               (domain_chars_count (chr ":") h eq_refl Hh)).
    cbn [fst]. destruct h as [|c h]; [congruence|].
    rewrite (partition_absent (chr "%") (c :: h)
               (domain_chars_count (chr "%") (c :: h) eq_refl Hh)).
    rewrite (lower_ascii rt _ (domain_chars_ascii _ Hh)).
    now rewrite app_nil_r.
Qed.

Lemma count_lower_dot (h : str) :
  count (chr ".") (map ascii_lower h) = count (chr ".") h.
Proof.
  induction h as [|c h IH]; [reflexivity|].
  cbn [map count]. rewrite IH. f_equal.
  unfold ascii_lower.
  destruct ((65 <=? c)%N && (c <=? 90)%N) eqn:E; [|reflexivity].
  apply andb_true_iff in E. destruct E as [E1 E2].
  apply N.leb_le in E1, E2. change (chr ".") with 46%N.
  destruct (N.eqb_spec (c + 32) 46), (N.eqb_spec c 46); try reflexivity; lia.
Qed.

(** X17. Rule 5 reads the host and nothing else.  For a text that, once
    trimmed, is [https://], a host made of letters, digits, dots and
    hyphens, and then nothing or a path, a query or a fragment, and that
    passes rules 1 to 4, the verdict is "Suspicious subdomain pattern" when
    the host has three dots or more and its lowercased form holds [login],
    [secure] or [account], and "legitimate" otherwise, whatever follows the
    host. *)
Theorem subdomain_rule_reads_the_host (rt : Runtime) (url h rest : str) :
  strip rt url = lit "https://" ++ h ++ rest ->
  h <> [] -> forallb domain_char h = true ->
  match rest with
  | [] => True
  | c :: _ => c = chr "/" \/ c = chr "?" \/ c = chr "#"
  end ->
  Re.search (ip_pattern rt) (strip rt url) = false ->
  startswith (lower rt (strip rt url)) (lit "https://") = true ->
  str_in (lit "@") (strip rt url) ||
  str_in (lit "//") (slice_from 8 (strip rt url)) = false ->
  length (strip rt url) <= 75 ->
  is_phishing_url rt url
  = Return (if (3 <=? count (chr ".") h) &&
               existsb (fun keyword => str_in keyword (map ascii_lower h))
                       [lit "login"; lit "secure"; lit "account"]
            then URL_SUBDOMAIN else URL_LEGITIMATE).
Proof.
  intros Hurl Hne Hh Hrest Hip Hhttps Hsym Hlen.
  destruct (hostname_of_https rt h rest Hne Hh Hrest) as [parsed [Hp Hhost]].
  unfold is_phishing_url. rewrite Hip, Hhttps, Hsym.
  apply Nat.ltb_ge in Hlen. rewrite Hlen.
  cbn [negb]. rewrite Hurl, Hp, Hhost.
  rewrite <- (count_lower_dot h).
  now destruct (_ && _).
Qed.

Lemma subdomain_rule_reads_the_host_witness :
  is_phishing_url ascii_runtime (lit " https://Mail.Example.com/login/secure ")
  = Return URL_LEGITIMATE /\
  is_phishing_url ascii_runtime (lit "https://a.b.LOGIN.example.com?q=1")
  = Return URL_SUBDOMAIN.
Proof.
  split.
  - apply (subdomain_rule_reads_the_host ascii_runtime
             (lit " https://Mail.Example.com/login/secure ")
             (lit "Mail.Example.com") (lit "/login/secure"));
      try reflexivity; try discriminate.
    + now left.
    + vm_compute. repeat constructor.
  - apply (subdomain_rule_reads_the_host ascii_runtime
             (lit "https://a.b.LOGIN.example.com?q=1")
             (lit "a.b.LOGIN.example.com") (lit "?q=1"));
      try reflexivity; try discriminate.
    + right. now left.
    + vm_compute. repeat constructor.
Defined.

(** ** The histories of the home page *)




(** ** The runtime on ASCII input *)






















